(** * pytypecheck: the [optional_typecheck] decorator of typecheck.py

    A shallow embedding of the decorator and of the host operations it
    relies on (runtime classes and [isinstance], [str.format] of the two
    diagnostics, [inspect.getcallargs], the interpreter's own argument
    binding), followed by the properties of the wrapper.

    Python objects that the decorator shares by reference are kept in an
    explicit store: the [__annotations__] dictionary of a function is a
    heap cell, and the closure built by [optional_typecheck] holds the
    address of that cell, exactly as the local variable [annotations] of
    the source holds a reference to the dictionary. *)

From stdpp Require Import base option list strings gmap pretty.

Set Warnings "-register-all".
Open Scope string_scope.
Open Scope list_scope.
Open Scope nat_scope.

(** ** Runtime classes and values *)

(** A class is known by its name and by the names of its proper
    ancestors (the tail of its [__mro__]). *)
Record cls := Cls { cls_name : string; cls_mro : list string }.

Definition object_cls : cls := Cls "object" [].
Definition int_cls : cls := Cls "int" ["object"].
Definition bool_cls : cls := Cls "bool" ["int"; "object"].
Definition str_cls : cls := Cls "str" ["object"].
Definition none_cls : cls := Cls "NoneType" ["object"].
Definition tuple_cls : cls := Cls "tuple" ["object"].
Definition list_cls : cls := Cls "list" ["object"].
Definition dict_cls : cls := Cls "dict" ["object"].

Inductive value :=
  | VNone
  | VBool (b : bool)
  | VInt (z : Z)
  | VStr (s : string)
  | VTuple (items : list value)
  | VList (items : list value)
  | VDict (items : list (string * value))
  | VObject (c : cls) (ident : nat).

(** [type(val)] *)
Definition type_of (val : value) : cls :=
  match val with
  | VNone => none_cls
  | VBool _ => bool_cls
  | VInt _ => int_cls
  | VStr _ => str_cls
  | VTuple _ => tuple_cls
  | VList _ => list_cls
  | VDict _ => dict_cls
  | VObject c _ => c
  end.

(** [issubclass(c, t)] for ordinary classes: [t] is [c] itself or occurs in
    the method resolution order of [c]; every class derives from
    [object].  Classes that override [__instancecheck__] or
    [__subclasscheck__] are outside the model. *)
Definition issubclass (c t : cls) : bool :=
  bool_decide (cls_name t = "object")
  || bool_decide (cls_name t = cls_name c)
  || bool_decide (cls_name t ∈ cls_mro c).


(** ** Exceptions and results *)

Record exn := Exn { exn_class : string; exn_msg : string }.

Definition TypeError (msg : string) : exn := Exn "TypeError" msg.
Definition AttributeError (msg : string) : exn := Exn "AttributeError" msg.

Inductive result (A : Type) :=
  | Ok (a : A)
  | Err (e : exn).
Arguments Ok {A} a.
Arguments Err {A} e.

Definition rbind {A B} (r : result A) (k : A → result B) : result B :=
  match r with
  | Ok a => k a
  | Err e => Err e
  end.

Notation "'try!' x := r 'in' k" := (rbind r (λ x, k))
  (at level 10, x name, r at level 100, k at level 200, only parsing).

Definition is_ok {A} (r : result A) : bool :=
  match r with Ok _ => true | Err _ => false end.

(** What a call produces. *)
Inductive outcome :=
  | Return (v : value)
  | Raise (e : exn).

(** ** Annotations and [isinstance] *)

(** An annotation is any object.  As the second argument of
    [isinstance] the interpreter tells apart

    - a class: [int];
    - a tuple of such arguments: [(int, str)], possibly nested;
    - a union: [int | None], which it replaces by the tuple of its
      members;
    - any other object: the string ["int"] of a quoted or postponed
      annotation, [None] as written in [-> None], a parameterized generic
      such as [list[int]].  The instance check refuses these with a
      [TypeError], whose message [complaint] depends on the kind of object
      and on the version of the interpreter.

    Of an object that is not a class, [text] is what [str.format] prints.
    Objects that answer the check through an [__instancecheck__] of their
    own are outside the model, like the classes that override it. *)
Inductive annot :=
  | AClass (c : cls)
  | ATuple (text : string) (items : list annot)
  | AUnion (text : string) (items : list annot)
  | AOther (text : string) (complaint : string).

(** ["{}".format(c)] for a class *)
Definition str_of_cls (c : cls) : string := "<class '" +:+ cls_name c +:+ "'>".

Definition str_of_annot (a : annot) : string :=
  match a with
  | AClass c => str_of_cls c
  | ATuple text _ | AUnion text _ | AOther text _ => text
  end.

(** [isinstance(val, a)].  The items of a tuple are tried from left to
    right until one accepts the value or raises; an item behind the one
    that accepts is not looked at. *)
Fixpoint isinstance (val : value) (a : annot) : result bool :=
  match a with
  | AClass c => Ok (issubclass (type_of val) c)
  | ATuple _ items | AUnion _ items =>
      (fix any_of (items : list annot) : result bool :=
         match items with
         | [] => Ok false
         | item :: items' =>
             match isinstance val item with
             | Ok false => any_of items'
             | r => r
             end
         end) items
  | AOther _ complaint => Err (TypeError complaint)
  end.

(** The message of the interpreter for an object that is neither a
    class, nor a tuple, nor a union, and has no check of its own. *)
Definition not_a_type : string :=
  "isinstance() arg 2 must be a type, a tuple of types, or a union".

(** ** Insertion-ordered dictionaries with string keys *)

Abbreviation dict V := (list (string * V)).

Fixpoint dict_get {V} (k : string) (d : dict V) : option V :=
  match d with
  | [] => None
  | (k', v) :: d' => if decide (k' = k) then Some v else dict_get k d'
  end.

(** [d[k] = v]: an existing key keeps its position, a new one goes last. *)
Fixpoint dict_set {V} (k : string) (v : V) (d : dict V) : dict V :=
  match d with
  | [] => [(k, v)]
  | (k', v') :: d' =>
      if decide (k' = k) then (k, v) :: d' else (k', v') :: dict_set k v d'
  end.

(** [k in d] *)
Definition dict_has {V} (k : string) (d : dict V) : bool :=
  bool_decide (is_Some (dict_get k d)).

(** ** Function objects *)

(** What the code object and the function object record about the
    parameters.  [co_args] lists the positional parameters in declaration
    order, the first [co_posonlyargcount] of which are positional-only;
    [co_defaults] belongs to the last parameters of [co_args]. *)
Record funcspec := FuncSpec {
  co_name : string;
  co_posonlyargcount : nat;
  co_args : list string;
  co_defaults : list value;
  co_varargs : option string;
  co_kwonlyargs : list string;
  co_kwonlydefaults : dict value;
  co_varkw : option string }.

(** The parameter names of a definition are pairwise distinct and there
    are no more positional defaults than positional parameters; the
    compiler rejects anything else. *)
Definition param_names (c : funcspec) : list string :=
  co_args c ++ co_kwonlyargs c
  ++ option_list (co_varargs c) ++ option_list (co_varkw c).

Definition wf_funcspec (c : funcspec) : bool :=
  bool_decide (NoDup (param_names c))
  && bool_decide (length (co_defaults c) ≤ length (co_args c))
  && bool_decide (co_posonlyargcount c ≤ length (co_args c)).

(** ** Diagnostics of the host's argument binding *)

Definition repr_str (s : string) : string := "'" +:+ s +:+ "'".

Fixpoint join_comma (l : list string) : string :=
  match l with
  | [] => ""
  | [x] => x
  | x :: l' => x +:+ ", " +:+ join_comma l'
  end.

Definition plural (b : bool) : string := if b then "s" else "".

Definition join_comma_and (l : list string) : string :=
  match l with
  | [a; b] => a +:+ " and " +:+ b
  | _ => join_comma l
  end.

(** The text built by [_missing_arguments] from the names found missing. *)
Definition format_missing (f_name : string) (missing_names : list string)
    (pos : bool) : string :=
  let names := repr_str <$> missing_names in
  let missing := length names in
  let s :=
    match names with
    | [a] => a
    | [a; b] => a +:+ " and " +:+ b
    | _ =>
        join_comma (take (missing - 2) names) +:+ ", "
        +:+ join_comma_and (drop (missing - 2) names)
    end in
  f_name +:+ "() missing " +:+ pretty missing +:+ " required "
  +:+ (if pos then "positional" else "keyword-only")
  +:+ " argument" +:+ plural (negb (missing =? 1)) +:+ ": " +:+ s.

Definition _missing_arguments (f_name : string) (argnames : list string)
    (pos : bool) (values : dict value) : exn :=
  TypeError
    (format_missing f_name
       (filter (λ name, dict_has name values = false) argnames) pos).

(** The text shared by [_too_many] and the interpreter. *)
Definition format_too_many (f_name : string) (num_args defcount : nat)
    (varargs : bool) (given kwonly_given : nat) : string :=
  let atleast := num_args - defcount in
  let '(plur, sig) :=
    if varargs then (negb (atleast =? 1), "at least " +:+ pretty atleast)
    else if negb (defcount =? 0)
    then (true, "from " +:+ pretty atleast +:+ " to " +:+ pretty num_args)
    else (negb (num_args =? 1), pretty num_args) in
  let kwonly_sig :=
    if negb (kwonly_given =? 0)
    then " positional argument" +:+ plural (negb (given =? 1))
         +:+ " (and " +:+ pretty kwonly_given +:+ " keyword-only argument"
         +:+ plural (negb (kwonly_given =? 1)) +:+ ")"
    else "" in
  f_name +:+ "() takes " +:+ sig +:+ " positional argument" +:+ plural plur
  +:+ " but " +:+ pretty given +:+ kwonly_sig +:+ " "
  +:+ (if (given =? 1) && (kwonly_given =? 0) then "was" else "were")
  +:+ " given".

Definition _too_many (f_name : string) (args kwonly : list string)
    (varargs : option string) (defcount given : nat) (values : dict value)
    : exn :=
  let kwonly_given :=
    length (filter (λ arg, dict_has arg values = true) kwonly) in
  TypeError
    (format_too_many f_name (length args) defcount
       (bool_decide (is_Some varargs)) given kwonly_given).

(** ** [inspect.getcallargs]

    The mapping from parameter names to the values a call binds to them,
    in the order in which the library inserts them.  [getfullargspec]
    reports the positional-only parameters among [args], so the count
    [co_posonlyargcount] plays no part here. *)

(** [for i in range(n): arg2value[args[i]] = positional[i]] *)
Definition bind_positional (args : list string) (positional : list value)
    (arg2value : dict value) : dict value :=
  foldl (λ d p, dict_set p.1 p.2 d) arg2value (zip args positional).

(** The mapping before the keywords are looked at: the positional
    arguments, then the tuple of the surplus ones under the name of
    [*args], then an empty dictionary under the name of [**kwargs]. *)
Definition initial_bindings (c : funcspec) (positional : list value)
    : dict value :=
  let n := length positional `min` length (co_args c) in
  let arg2value := bind_positional (co_args c) positional [] in
  let arg2value :=
    match co_varargs c with
    | Some varargs => dict_set varargs (VTuple (drop n positional)) arg2value
    | None => arg2value
    end in
  match co_varkw c with
  | Some varkw => dict_set varkw (VDict []) arg2value
  | None => arg2value
  end.

(** [arg2value[varkw][kw] = value] *)
Definition kwdict_setitem (varkw kw : string) (val : value)
    (arg2value : dict value) : dict value :=
  match dict_get varkw arg2value with
  | Some (VDict kd) => dict_set varkw (VDict (dict_set kw val kd)) arg2value
  | _ => arg2value
  end.

(** [for kw, value in named.items(): ...] *)
Fixpoint bind_named (c : funcspec) (possible_kwargs : list string)
    (named : dict value) (arg2value : dict value) : result (dict value) :=
  match named with
  | [] => Ok arg2value
  | (kw, val) :: named' =>
      if bool_decide (kw ∈ possible_kwargs) then
        if dict_has kw arg2value then
          Err (TypeError (co_name c +:+ "() got multiple values for argument "
                          +:+ repr_str kw))
        else bind_named c possible_kwargs named' (dict_set kw val arg2value)
      else
        match co_varkw c with
        | None =>
            Err (TypeError (co_name c +:+ "() got an unexpected keyword argument "
                            +:+ repr_str kw))
        | Some varkw =>
            bind_named c possible_kwargs named'
              (kwdict_setitem varkw kw val arg2value)
        end
  end.

(** [for i, arg in enumerate(args[num_args - num_defaults:]): ...] *)
Definition fill_defaults (args : list string) (defaults : list value)
    (arg2value : dict value) : dict value :=
  foldl (λ d p, if dict_has p.1 d then d else dict_set p.1 p.2 d)
        arg2value (zip args defaults).

(** The two tests on the positional parameters: too many arguments, then
    required ones missing, then the defaults. *)
Definition bind_defaults (c : funcspec) (num_pos : nat)
    (arg2value : dict value) : result (dict value) :=
  let args := co_args c in
  let num_args := length args in
  let num_defaults := length (co_defaults c) in
  if (num_args <? num_pos) && negb (bool_decide (is_Some (co_varargs c))) then
    Err (_too_many (co_name c) args (co_kwonlyargs c) (co_varargs c)
           num_defaults num_pos arg2value)
  else if num_pos <? num_args then
    let req := take (num_args - num_defaults) args in
    if forallb (λ arg, dict_has arg arg2value) req then
      Ok (fill_defaults (drop (num_args - num_defaults) args) (co_defaults c)
            arg2value)
    else Err (_missing_arguments (co_name c) req true arg2value)
  else Ok arg2value.

(** One round of [for kwarg in kwonlyargs: ...], with the counter
    [missing]. *)
Definition kwonly_step (kwonlydefaults : dict value)
    (acc : dict value * nat) (kwarg : string) : dict value * nat :=
  let '(d, missing) := acc in
  if dict_has kwarg d then (d, missing)
  else match dict_get kwarg kwonlydefaults with
       | Some v => (dict_set kwarg v d, missing)
       | None => (d, S missing)
       end.

Definition bind_kwonly (c : funcspec) (arg2value : dict value)
    : result (dict value) :=
  let '(arg2value, missing) :=
    foldl (kwonly_step (co_kwonlydefaults c)) (arg2value, 0) (co_kwonlyargs c) in
  if negb (missing =? 0) then
    Err (_missing_arguments (co_name c) (co_kwonlyargs c) false arg2value)
  else Ok arg2value.

Definition getcallargs (c : funcspec) (positional : list value)
    (named : dict value) : result (dict value) :=
  let possible_kwargs := co_args c ++ co_kwonlyargs c in
  try! arg2value :=
    bind_named c possible_kwargs named (initial_bindings c positional) in
  try! arg2value := bind_defaults c (length positional) arg2value in
  bind_kwonly c arg2value.

(** ** Argument binding of the interpreter

    What a direct call [function( *args, **kwargs)] does before the body
    runs: the local slots of the frame, one per positional and
    keyword-only parameter, are filled from the positional arguments, the
    keywords and the defaults. *)

Fixpoint find_name (kw : string) (names : list string) : option nat :=
  match names with
  | [] => None
  | name :: names' =>
      if decide (name = kw) then Some 0 else S <$> find_name kw names'
  end.

(** A keyword is looked up among the parameters after the positional-only
    ones. *)
Definition find_param (c : funcspec) (kw : string) : option nat :=
  (λ j, co_posonlyargcount c + j)
    <$> find_name kw (drop (co_posonlyargcount c) (co_args c ++ co_kwonlyargs c)).

Definition slot_filled (s : option value) : bool :=
  match s with Some _ => true | None => false end.

(** The slots after the positional arguments were copied. *)
Definition initial_slots (c : funcspec) (positional : list value)
    : list (option value) :=
  let n := length positional `min` length (co_args c) in
  (Some <$> take n positional)
  ++ replicate (length (co_args c ++ co_kwonlyargs c) - n) None.

Fixpoint handle_keywords (c : funcspec) (named : dict value)
    (localsplus : list (option value)) (kwdict : dict value)
    : result (list (option value) * dict value) :=
  match named with
  | [] => Ok (localsplus, kwdict)
  | (keyword, val) :: named' =>
      match find_param c keyword with
      | Some j =>
          if slot_filled (mjoin (localsplus !! j)) then
            Err (TypeError (co_name c +:+ "() got multiple values for argument "
                            +:+ repr_str keyword))
          else handle_keywords c named' (<[j := Some val]> localsplus) kwdict
      | None =>
          match co_varkw c with
          | None =>
              if bool_decide (keyword ∈ take (co_posonlyargcount c) (co_args c))
              then
                Err (TypeError (co_name c +:+ "() got some positional-only "
                       +:+ "arguments passed as keyword arguments: "
                       +:+ repr_str keyword))
              else
                Err (TypeError (co_name c
                       +:+ "() got an unexpected keyword argument "
                       +:+ repr_str keyword))
          | Some _ =>
              handle_keywords c named' localsplus (dict_set keyword val kwdict)
          end
      end
  end.

(** The names of the parameters whose slot is still empty. *)
Definition unfilled (names : list string) (localsplus : list (option value))
    : list string :=
  (filter (λ p, slot_filled p.2 = false) (zip names localsplus)).*1.

(** Copy the positional defaults into the empty slots [m+i], [i0 <= i]. *)
Definition copy_defaults (m i0 : nat) (defs : list value)
    (localsplus : list (option value)) : list (option value) :=
  foldl (λ l i, if slot_filled (mjoin (l !! (m + i))) then l
                else <[m + i := defs !! i]> l)
        localsplus (seq i0 (length defs - i0)).

(** The tests on the positional parameters, then their defaults. *)
Definition slots_defaults (c : funcspec) (argcount : nat)
    (localsplus : list (option value)) : result (list (option value)) :=
  let co_argcount := length (co_args c) in
  let n := argcount `min` co_argcount in
  if (co_argcount <? argcount) && negb (bool_decide (is_Some (co_varargs c)))
  then
    Err (TypeError (format_too_many (co_name c) co_argcount
           (length (co_defaults c)) false argcount
           (length (filter (λ s, slot_filled s = true)
                      (drop co_argcount localsplus)))))
  else if argcount <? co_argcount then
    let defcount := length (co_defaults c) in
    let m := co_argcount - defcount in
    let missing :=
      unfilled (drop argcount (take m (co_args c)))
               (drop argcount (take m localsplus)) in
    if negb (length missing =? 0) then
      Err (TypeError (format_missing (co_name c) missing true))
    else Ok (copy_defaults m (n - m) (co_defaults c) localsplus)
  else Ok localsplus.

(** One round of the loop over the keyword-only slots; [missing] counts
    the slots left empty. *)
Definition kwdefault_step (c : funcspec) (acc : list (option value) * nat)
    (i : nat) : list (option value) * nat :=
  let '(l, missing) := acc in
  if slot_filled (mjoin (l !! i)) then (l, missing)
  else match (co_kwonlyargs c !! (i - length (co_args c)))
               ≫= (λ name, dict_get name (co_kwonlydefaults c)) with
       | Some v => (<[i := Some v]> l, missing)
       | None => (l, S missing)
       end.

Definition slots_kwdefaults (c : funcspec) (localsplus : list (option value))
    : result (list (option value)) :=
  let co_argcount := length (co_args c) in
  let '(localsplus, missing) :=
    foldl (kwdefault_step c) (localsplus, 0)
          (seq co_argcount (length (co_kwonlyargs c))) in
  if negb (missing =? 0) then
    Err (TypeError (format_missing (co_name c)
           (unfilled (co_kwonlyargs c) (drop co_argcount localsplus)) false))
  else Ok localsplus.

Definition bind_call (c : funcspec) (positional : list value)
    (named : dict value) : result (dict value) :=
  let names := co_args c ++ co_kwonlyargs c in
  let n := length positional `min` length (co_args c) in
  let varargs := VTuple (drop n positional) in
  try! lk := handle_keywords c named (initial_slots c positional) [] in
  let '(localsplus, kwdict) := lk in
  try! localsplus := slots_defaults c (length positional) localsplus in
  try! localsplus := slots_kwdefaults c localsplus in
  Ok (omap (λ p, (p.1,.) <$> p.2) (zip names localsplus)
      ++ from_option (λ name, [(name, varargs)]) [] (co_varargs c)
      ++ from_option (λ name, [(name, VDict kwdict)]) [] (co_varkw c)).

(** ** The store, function objects and direct calls *)

Definition loc := nat.

Section Decorator.
(** Whatever else a function body can observe or change. *)
Context {World : Type}.

(** [heap] holds the annotation dictionaries; [fn_annotations] gives, for
    each function object, the dictionary its [__annotations__] attribute
    currently refers to. *)
Record state := State {
  heap : gmap loc (gmap string annot);
  fn_annotations : gmap nat loc;
  world : World }.

Record pyfunction := PyFunction {
  f_id : nat;
  f_code : funcspec;
  f_body : dict value → state → outcome * state }.

(** The dictionary stored at an address.  A reference keeps its
    dictionary alive, so the addresses held by function objects and
    closures are always allocated; the empty dictionary stands for the
    others. *)
Definition deref (st : state) (l : loc) : gmap string annot :=
  default ∅ (heap st !! l).

(** [function( *args, **kwargs)] *)
Definition call_function (function : pyfunction) (args : list value)
    (kwargs : dict value) (st : state) : outcome * state :=
  match bind_call (f_code function) args kwargs with
  | Err e => (Raise e, st)
  | Ok locals => f_body function locals st
  end.

(** [function.__annotations__[name] = a]: the dictionary is changed in
    place. *)
Definition annotations_setitem (function : pyfunction) (name : string)
    (a : annot) (st : state) : state :=
  match fn_annotations st !! f_id function with
  | Some l =>
      State (<[l := <[name := a]> (deref st l)]> (heap st))
            (fn_annotations st) (world st)
  | None => st
  end.

(** [function.__annotations__ = d], for a dictionary [d] living at
    [l']: the attribute is rebound, no dictionary changes. *)
Definition annotations_rebind (function : pyfunction) (l' : loc)
    (st : state) : state :=
  State (heap st) (<[f_id function := l']> (fn_annotations st)) (world st).

(** ** The decorator *)

(** The closure [wrapper]: the decorated function and the reference
    held by the variable [annotations]. *)
Record closure := Closure {
  w_function : pyfunction;
  w_annotations : loc }.

(** [annotations = function.__annotations__; return wrapper].
    [functools.wraps] only copies metadata onto the wrapper. *)
Definition optional_typecheck (function : pyfunction) (st : state)
    : result closure :=
  match fn_annotations st !! f_id function with
  | Some l => Ok (Closure function l)
  | None =>
      Err (AttributeError
             ("'" +:+ co_name (f_code function)
              +:+ "' object has no attribute '__annotations__'"))
  end.

Definition arg_mismatch (name : string) (a : annot) (val : value) : exn :=
  TypeError ("Expected argument '" +:+ name +:+ "' of type "
             +:+ str_of_annot a +:+ " but got "
             +:+ str_of_cls (type_of val) +:+ ".").

Definition return_mismatch (a : annot) (val : value) : exn :=
  TypeError ("Expected return of type " +:+ str_of_annot a +:+ " but got "
             +:+ str_of_cls (type_of val) +:+ ".").

(** The loop over [inspect.getcallargs(...).items()]. *)
Fixpoint check_parameters (annotations : gmap string annot)
    (callargs : dict value) : result () :=
  match callargs with
  | [] => Ok ()
  | (name, val) :: callargs' =>
      match annotations !! name with
      | Some a =>
          try! ok := isinstance val a in
          if ok then check_parameters annotations callargs'
          else Err (arg_mismatch name a val)
      | None => check_parameters annotations callargs'
      end
  end.

(** The check of the returned value. *)
Definition check_return (annotations : gmap string annot) (res : value)
    : result () :=
  match annotations !! "return" with
  | Some a =>
      try! ok := isinstance res a in
      if ok then Ok () else Err (return_mismatch a res)
  | None => Ok ()
  end.

(** The first two steps of [wrapper]: bind, then check each bound
    parameter. *)
Definition check_call (w : closure) (args : list value)
    (kwargs : dict value) (st : state) : result () :=
  try! callargs := getcallargs (f_code (w_function w)) args kwargs in
  check_parameters (deref st (w_annotations w)) callargs.

Definition wrapper (w : closure) (args : list value) (kwargs : dict value)
    (st : state) : outcome * state :=
  match check_call w args kwargs st with
  | Err e => (Raise e, st)
  | Ok _ =>
      match call_function (w_function w) args kwargs st with
      | (Raise e, st') => (Raise e, st')
      | (Return res, st') =>
          match check_return (deref st' (w_annotations w)) res with
          | Err e => (Raise e, st')
          | Ok _ => (Return res, st')
          end
      end
  end.

End Decorator.

Arguments state : clear implicits.
Arguments pyfunction : clear implicits.
Arguments closure : clear implicits.

(** ** Textual form of values, for the functions of the test suite *)

Fixpoint repr_value (v : value) : string :=
  match v with
  | VNone => "None"
  | VBool b => if b then "True" else "False"
  | VInt z => pretty z
  | VStr s => repr_str s
  | VTuple items =>
      match items with
      | [x] => "(" +:+ repr_value x +:+ ",)"
      | _ => "(" +:+ join_comma (map repr_value items) +:+ ")"
      end
  | VList items => "[" +:+ join_comma (map repr_value items) +:+ "]"
  | VDict items =>
      "{" +:+ join_comma
                (map (λ p, let '(k, x) := p in repr_str k +:+ ": " +:+ repr_value x)
                     items) +:+ "}"
  | VObject c _ => "<" +:+ cls_name c +:+ " object>"
  end.

(** ["{}".format(v)] *)
Definition format_value (v : value) : string :=
  match v with
  | VStr s => s
  | _ => repr_value v
  end.

(** ** The functions of [_testsuite], and two more with side effects *)

Module Testsuite.

(** The world of these functions is a log of the bodies that ran. *)

(** A local variable of the frame. *)
Definition local (name : string) (locals : dict value) : value :=
  default VNone (dict_get name locals).

(** [def foo(x: int) -> str: return "{}".format(x)] *)
Definition foo : pyfunction (list string) :=
  PyFunction 1 (FuncSpec "foo" 0 ["x"] [] None [] [] None)
    (λ locals st, (Return (VStr (format_value (local "x" locals))), st)).

(** [def bar(x: int) -> int: return "badreturn"] *)
Definition bar : pyfunction (list string) :=
  PyFunction 2 (FuncSpec "bar" 0 ["x"] [] None [] [] None)
    (λ locals st, (Return (VStr "badreturn"), st)).

(** [def qux(x: int, y, z: int): return "{}{}{}".format(x, y, z)] *)
Definition qux : pyfunction (list string) :=
  PyFunction 3 (FuncSpec "qux" 0 ["x"; "y"; "z"] [] None [] [] None)
    (λ locals st,
       (Return (VStr (format_value (local "x" locals)
                      +:+ format_value (local "y" locals)
                      +:+ format_value (local "z" locals))), st)).

(** [def tick(x: int, y=None) -> int: log.append("tick"); return "done"] *)
Definition tick : pyfunction (list string) :=
  PyFunction 4 (FuncSpec "tick" 0 ["x"; "y"] [VNone] None [] [] None)
    (λ locals st,
       (Return (VStr "done"),
        State (heap st) (fn_annotations st) ("tick" :: world st))).

(** [def boom(x: int): log.append("boom"); raise ValueError("boom")] *)
Definition boom : pyfunction (list string) :=
  PyFunction 5 (FuncSpec "boom" 0 ["x"] [] None [] [] None)
    (λ locals st,
       (Raise (Exn "ValueError" "boom"),
        State (heap st) (fn_annotations st) ("boom" :: world st))).


(** [def first(x, /, **kw): return x] *)
Definition first : pyfunction (list string) :=
  PyFunction 7 (FuncSpec "first" 1 ["x"] [] None [] [] (Some "kw"))
    (λ locals st, (Return (local "x" locals), st)).

(** The store after the definitions: one dictionary per function. *)
Definition st0 : state (list string) :=
  State
    (<[1 := <["x" := AClass int_cls]> (<["return" := AClass str_cls]> ∅)]>
     (<[2 := <["x" := AClass int_cls]> (<["return" := AClass int_cls]> ∅)]>
     (<[3 := <["x" := AClass int_cls]> (<["z" := AClass int_cls]> ∅)]>
     (<[4 := <["x" := AClass int_cls]> (<["return" := AClass int_cls]> ∅)]>
     (<[5 := <["x" := AClass int_cls]> ∅]>
     (<[6 := <["x" := AClass int_cls]> ∅]>
     (<[7 := ∅]> ∅)))))))
    (<[1 := 1]> (<[2 := 2]> (<[3 := 3]> (<[4 := 4]> (<[5 := 5]>
     (<[6 := 6]> (<[7 := 7]> ∅)))))))
    [].

End Testsuite.

(** ** What the claims speak about *)

(** The value bound to [name] is an instance of the type declared for
    [name], if one is declared. *)
Definition instance_of_declared (annotations : gmap string annot)
    (name : string) (val : value) : bool :=
  match annotations !! name with
  | Some a => match isinstance val a with Ok true => true | _ => false end
  | None => true
  end.

(** The value a call returned is an instance of the declared return type,
    if one is declared when the call returns; a call that raised returned
    nothing. *)
Definition return_of_declared {World} (w : closure World)
    (r : outcome * state World) : bool :=
  match r with
  | (Return res, st') =>
      instance_of_declared (deref st' (w_annotations w)) "return" res
  | (Raise _, _) => true
  end.



(** The slots of the interpreter that a mapping of [getcallargs]
    describes: one per positional and keyword-only parameter. *)
Definition slots_of (c : funcspec) (arg2value : dict value)
    : list (option value) :=
  (λ name, dict_get name arg2value) <$> (co_args c ++ co_kwonlyargs c).

(** A keyword of the call is the name of a positional-only parameter. *)
Definition names_posonly (c : funcspec) (kwargs : dict value) : bool :=
  existsb (λ kw, bool_decide (kw ∈ take (co_posonlyargcount c) (co_args c)))
          kwargs.*1.

(** ** The self-test of the module *)

Definition RuntimeError (msg : string) : exn := Exn "RuntimeError" msg.

(** A statement that may raise, followed by the rest of the block. *)
Definition then_do {World} (stmt : state World → outcome * state World)
    (rest : value → state World → outcome * state World)
    (st : state World) : outcome * state World :=
  match stmt st with
  | (Return v, st') => rest v st'
  | (Raise e, st') => (Raise e, st')
  end.

Notation "'do!' x := stmt 'in' rest" := (then_do stmt (λ x, rest))
  (at level 10, x name, stmt at level 100, rest at level 200, only parsing).

(** [def f(...): ...]: a new function object, with a new dictionary for
    the annotations written in its header. *)
Definition def_function {World} (f : pyfunction World)
    (annotations : gmap string annot) (st : state World)
    : pyfunction World * state World :=
  let id := fresh (dom (fn_annotations st)) in
  let l := fresh (dom (heap st)) in
  (PyFunction id (f_code f) (f_body f),
   State (<[l := annotations]> (heap st)) (<[id := l]> (fn_annotations st))
         (world st)).

(** [@optional_typecheck] in front of a [def]. *)
Definition def_decorated {World} (f : pyfunction World)
    (annotations : gmap string annot)
    (rest : closure World → state World → outcome * state World)
    (st : state World) : outcome * state World :=
  let '(function, st') := def_function f annotations st in
  match optional_typecheck function st' with
  | Ok w => rest w st'
  | Err e => (Raise e, st')
  end.

(** [try: call; raise RuntimeError(msg)] followed by
    [except TypeError: pass].  An exception of the model carries the name
    of its class only, so the handler is entered for the class
    [TypeError] itself. *)
Definition expect_TypeError {World}
    (call : state World → outcome * state World) (msg : string)
    (st : state World) : outcome * state World :=
  match call st with
  | (Return _, st') => (Raise (RuntimeError msg), st')
  | (Raise e, st') =>
      if bool_decide (exn_class e = "TypeError") then (Return VNone, st')
      else (Raise e, st')
  end.

(** [s != v] for a string [s]. *)
Definition str_ne (s : string) (v : value) : bool :=
  match v with
  | VStr s' => negb (String.eqb s s')
  | _ => true
  end.

(** [if cond: raise RuntimeError(msg)] *)
Definition raise_if {World} (cond : bool) (msg : string) (st : state World)
    : outcome * state World :=
  if cond then (Raise (RuntimeError msg), st) else (Return VNone, st).

Definition foo_annotations : gmap string annot :=
  <["x" := AClass int_cls]> (<["return" := AClass str_cls]> ∅).
Definition bar_annotations : gmap string annot :=
  <["x" := AClass int_cls]> (<["return" := AClass int_cls]> ∅).
Definition qux_annotations : gmap string annot :=
  <["x" := AClass int_cls]> (<["z" := AClass int_cls]> ∅).

(** The argument [{'a': 2, 'b': [1,2,3], 'c': "qwer"}] of the last call. *)
Definition qux_y : value :=
  VDict [("a", VInt 2); ("b", VList [VInt 1; VInt 2; VInt 3]);
         ("c", VStr "qwer")].

Definition _testsuite : state (list string) → outcome * state (list string) :=
  (* test parameters *)
  def_decorated Testsuite.foo foo_annotations (λ foo,
  do! r := wrapper foo [VInt 1] [] in
  do! _ := raise_if (str_ne "1" r) "bad return value for foo(1)" in
  do! _ := expect_TypeError (wrapper foo [VStr "a"] [])
             "accepts str as int" in
  (* test return value *)
  def_decorated Testsuite.bar bar_annotations (λ bar,
  do! _ := expect_TypeError (wrapper bar [VInt 1] [])
             "should always fail (with int)" in
  do! _ := expect_TypeError (wrapper bar [VStr "a"] [])
             "should always fail (with str)" in
  (* test missing annotations *)
  def_decorated Testsuite.qux qux_annotations (λ qux,
  do! _ := expect_TypeError (wrapper qux [VStr "a"; VInt 1; VInt 2] [])
             "qux accepts str as int" in
  do! a := wrapper qux [VInt 1; qux_y; VInt 3] [] in
  do! _ := raise_if (str_ne "1{'a': 2, 'b': [1, 2, 3], 'c': 'qwer'}3" a)
             "bad output for complex qux" in
  λ st, (Return VNone, st)))).

(** [print(line)]: the world of the module is what it printed, last line
    first. *)
Definition print (line : string) (st : state (list string))
    : state (list string) :=
  State (heap st) (fn_annotations st) (line :: world st).

(** The classes [except Exception] lets through. *)
Definition is_Exception (e : exn) : bool :=
  bool_decide (exn_class e ∉ ["BaseException"; "KeyboardInterrupt";
                              "SystemExit"; "GeneratorExit"]).

(** The statements at the end of the module, run when it is loaded:
    [try: _testsuite()] with [except Exception: print(...); raise]. *)
Definition run_on_import (st : state (list string))
    : outcome * state (list string) :=
  match _testsuite st with
  | (Raise e, st') =>
      if is_Exception e
      then (Raise e, print "ERROR: typecheck testsuite failed:" st')
      else (Raise e, st')
  | (Return v, st') => (Return v, st')
  end.

(** The outcome of the wrapper for a function whose body computes
    [g locals] and leaves the store alone, when [annotations] is the
    dictionary the wrapper reads. *)
Definition pure_wrapper_outcome (c : funcspec) (g : dict value → outcome)
    (annotations : gmap string annot) (args : list value)
    (kwargs : dict value) : outcome :=
  match getcallargs c args kwargs with
  | Err e => Raise e
  | Ok callargs =>
      match check_parameters annotations callargs with
      | Err e => Raise e
      | Ok _ =>
          match bind_call c args kwargs with
          | Err e => Raise e
          | Ok locals =>
              match g locals with
              | Raise e => Raise e
              | Return res =>
                  match check_return annotations res with
                  | Err e => Raise e
                  | Ok _ => Return res
                  end
              end
          end
      end
  end.

(** ** The wrapper as a function object *)

(** The code of [def wrapper( *args, **kwargs)], under the name that
    [functools.wraps] copies from the decorated function. *)
Definition wrapper_code (name : string) : funcspec :=
  FuncSpec name 0 [] [] (Some "args") [] [] (Some "kwargs").

(** The function object [wrapper] with identity [id]: its body is the
    body of [wrapper] in the source, run on the two locals. *)
Definition wrapper_function {World} (w : closure World) (id : nat)
    : pyfunction World :=
  PyFunction id (wrapper_code (co_name (f_code (w_function w))))
    (λ locals st,
       match dict_get "args" locals, dict_get "kwargs" locals with
       | Some (VTuple args), Some (VDict kwargs) => wrapper w args kwargs st
       | _, _ => (Raise (Exn "SystemError" "bad locals"), st)
       end).

(** [optional_typecheck(function)] as a whole: the closure is built, and
    [functools.wraps] gives the new function object the attributes of the
    decorated one, among them [__annotations__], the same dictionary. *)
Definition decorate {World} (function : pyfunction World)
    (st : state World) : result (pyfunction World * state World) :=
  try! w := optional_typecheck function st in
  let id := fresh (dom (fn_annotations st)) in
  Ok (wrapper_function w id,
      State (heap st) (<[id := w_annotations w]> (fn_annotations st))
            (world st)).

(** ** Further examples *)

Module Examples.

(** [def h(a, b=2, *c, d, e=5, **k): return a] *)
Definition h : pyfunction (list string) :=
  PyFunction 11
    (FuncSpec "h" 0 ["a"; "b"] [VInt 2] (Some "c") ["d"; "e"]
       [("e", VInt 5)] (Some "k"))
    (λ locals st, (Return (Testsuite.local "a" locals), st)).

(** [def total( *args: int): log.append("total"); return len(args)] *)
Definition total : pyfunction (list string) :=
  PyFunction 12 (FuncSpec "total" 0 [] [] (Some "args") [] [] None)
    (λ locals st,
       (Return (match Testsuite.local "args" locals with
                | VTuple items => VInt (Z.of_nat (length items))
                | _ => VNone
                end),
        State (heap st) (fn_annotations st) ("total" :: world st))).

(** [def lazy(x: "int") -> "int": log.append("lazy"); return x], with
    annotations written as strings *)
Definition lazy : pyfunction (list string) :=
  PyFunction 13 (FuncSpec "lazy" 0 ["x"] [] None [] [] None)
    (λ locals st,
       (Return (Testsuite.local "x" locals),
        State (heap st) (fn_annotations st) ("lazy" :: world st))).

(** [def later(x) -> None: log.append("later"); return x]: the
    annotation is the object [None], which is not a class *)
Definition later : pyfunction (list string) :=
  PyFunction 14 (FuncSpec "later" 0 ["x"] [] None [] [] None)
    (λ locals st,
       (Return (Testsuite.local "x" locals),
        State (heap st) (fn_annotations st) ("later" :: world st))).

(** [def plain(a, b=2): log.append("plain"); return b] *)
Definition plain : pyfunction (list string) :=
  PyFunction 15 (FuncSpec "plain" 0 ["a"; "b"] [VInt 2] None [] [] None)
    (λ locals st,
       (Return (Testsuite.local "b" locals),
        State (heap st) (fn_annotations st) ("plain" :: world st))).

(** [def named(args: int): return args], a parameter called [args] *)
Definition named : pyfunction (list string) :=
  PyFunction 16 (FuncSpec "named" 0 ["args"] [] None [] [] None)
    (λ locals st, (Return (Testsuite.local "args" locals), st)).

(** [def opt(x: int | None = None, y: (int, str) = 0):
    log.append("opt"); return x] *)
Definition opt : pyfunction (list string) :=
  PyFunction 17
    (FuncSpec "opt" 0 ["x"; "y"] [VNone; VInt 0] None [] [] None)
    (λ locals st,
       (Return (Testsuite.local "x" locals),
        State (heap st) (fn_annotations st) ("opt" :: world st))).

Definition st1 : state (list string) :=
  State
    (<[11 := ∅]>
     (<[12 := <["args" := AClass int_cls]> ∅]>
     (<[13 := <["x" := AOther "int" not_a_type]>
               (<["return" := AOther "int" not_a_type]> ∅)]>
     (<[14 := <["return" := AOther "None" not_a_type]> ∅]>
     (<[15 := ∅]>
     (<[16 := <["args" := AClass int_cls]> ∅]>
     (<[17 := <["x" := AUnion "int | None"
                         [AClass int_cls; AClass none_cls]]>
               (<["y" := ATuple "(<class 'int'>, <class 'str'>)"
                           [AClass int_cls; AClass str_cls]]> ∅)]> ∅)))))))
    (<[11 := 11]> (<[12 := 12]> (<[13 := 13]> (<[14 := 14]> (<[15 := 15]>
     (<[16 := 16]> (<[17 := 17]> ∅)))))))
    [].

(** [foo] of the test suite decorated once and twice, with the stores
    the two decorations leave. *)
Definition foo1 : pyfunction (list string) :=
  wrapper_function (Closure Testsuite.foo 1)
    (fresh (dom (fn_annotations Testsuite.st0))).
Definition st_foo1 : state (list string) :=
  State (heap Testsuite.st0)
    (<[fresh (dom (fn_annotations Testsuite.st0)) := 1]>
       (fn_annotations Testsuite.st0))
    (world Testsuite.st0).
Definition foo2 : pyfunction (list string) :=
  wrapper_function (Closure foo1 1) (fresh (dom (fn_annotations st_foo1))).
Definition st_foo2 : state (list string) :=
  State (heap st_foo1)
    (<[fresh (dom (fn_annotations st_foo1)) := 1]> (fn_annotations st_foo1))
    (world st_foo1).

(** [named] decorated once and twice. *)
Definition named1 : pyfunction (list string) :=
  wrapper_function (Closure named 16) (fresh (dom (fn_annotations st1))).
Definition st_named1 : state (list string) :=
  State (heap st1)
    (<[fresh (dom (fn_annotations st1)) := 16]> (fn_annotations st1))
    (world st1).
Definition named2 : pyfunction (list string) :=
  wrapper_function (Closure named1 16)
    (fresh (dom (fn_annotations st_named1))).
Definition st_named2 : state (list string) :=
  State (heap st_named1)
    (<[fresh (dom (fn_annotations st_named1)) := 16]>
       (fn_annotations st_named1))
    (world st_named1).

End Examples.

(** * Properties *)

(** ** Dictionaries *)
Lemma dict_has_true {V} (k : string) (d : dict V) :
  dict_has k d = true ↔ is_Some (dict_get k d).
Proof. unfold dict_has. apply bool_decide_eq_true. Qed.

Lemma dict_has_false {V} (k : string) (d : dict V) :
  dict_has k d = false ↔ dict_get k d = None.
Proof.
  unfold dict_has. rewrite bool_decide_eq_false, <- eq_None_not_Some. done.
Qed.

(** ** The checks *)

(** Induction on an annotation, with the items of tuples and unions. *)
Lemma annot_items_ind (P : annot → Prop) :
  (∀ c, P (AClass c)) →
  (∀ text items, Forall P items → P (ATuple text items)) →
  (∀ text items, Forall P items → P (AUnion text items)) →
  (∀ text complaint, P (AOther text complaint)) →
  ∀ a, P a.
Proof.
  intros Hclass Htuple Hunion Hother. fix IH 1.
  intros [c|text items|text items|text complaint].
  - apply Hclass.
  - apply Htuple. induction items as [|item items IHitems]; constructor;
      [apply IH|apply IHitems].
  - apply Hunion. induction items as [|item items IHitems]; constructor;
      [apply IH|apply IHitems].
  - apply Hother.
Qed.

(** The loop over the items of a tuple or union. *)
Lemma isinstance_items val text items :
  isinstance val (ATuple text items)
  = match items with
    | [] => Ok false
    | item :: items' =>
        match isinstance val item with
        | Ok false => isinstance val (ATuple text items')
        | r => r
        end
    end
  ∧ isinstance val (AUnion text items) = isinstance val (ATuple text items).
Proof. split; [by destruct items|done]. Qed.

Lemma isinstance_TypeError val a e :
  isinstance val a = Err e → exn_class e = "TypeError".
Proof.
  revert e. induction a as [c|text items IH|text items IH|text complaint]
    using annot_items_ind; intros e.
  - done.
  - induction IH as [|item items Hitem _ IHitems].
    + done.
    + rewrite (proj1 (isinstance_items val text (item :: items))).
      destruct (isinstance val item) as [[]|e'] eqn:Hi; [done|apply IHitems|].
      intros [= <-]. by apply Hitem.
  - rewrite (proj2 (isinstance_items val text items)).
    induction IH as [|item items Hitem _ IHitems].
    + done.
    + rewrite (proj1 (isinstance_items val text (item :: items))).
      destruct (isinstance val item) as [[]|e'] eqn:Hi; [done|apply IHitems|].
      intros [= <-]. by apply Hitem.
  - by intros [= <-].
Qed.

Lemma check_parameters_app annotations pre post :
  check_parameters annotations (pre ++ post)
  = (try! _ := check_parameters annotations pre in
     check_parameters annotations post).
Proof.
  induction pre as [|[name val] pre IH]; simpl; [done|].
  destruct (annotations !! name) as [a|]; [|done].
  destruct (isinstance val a) as [[]|]; simpl; done.
Qed.

Lemma check_parameters_TypeError annotations callargs e :
  check_parameters annotations callargs = Err e → exn_class e = "TypeError".
Proof.
  induction callargs as [|[name val] callargs IH]; simpl; [done|].
  destruct (annotations !! name) as [a|]; [|done].
  destruct (isinstance val a) as [[]|e'] eqn:Hi; simpl; [done| |].
  - by intros [= <-].
  - intros [= <-]. by eapply isinstance_TypeError.
Qed.

Lemma check_return_TypeError annotations res e :
  check_return annotations res = Err e → exn_class e = "TypeError".
Proof.
  unfold check_return. destruct (annotations !! "return") as [a|]; [|done].
  destruct (isinstance res a) as [[]|e'] eqn:Hi; simpl; [done| |].
  - by intros [= <-].
  - intros [= <-]. by eapply isinstance_TypeError.
Qed.

Lemma check_parameters_cons_pass annotations name val callargs :
  instance_of_declared annotations name val = true →
  check_parameters annotations ((name, val) :: callargs)
  = check_parameters annotations callargs.
Proof.
  unfold instance_of_declared. simpl.
  destruct (annotations !! name) as [a|]; [|done].
  by destruct (isinstance val a) as [[]|].
Qed.

Lemma check_parameters_Ok annotations callargs :
  forallb (λ p, instance_of_declared annotations p.1 p.2) callargs = true →
  check_parameters annotations callargs = Ok ().
Proof.
  induction callargs as [|[name val] callargs IH]; [done|].
  cbn [forallb]. intros [H1 H2]%andb_prop.
  rewrite check_parameters_cons_pass; auto.
Qed.

Lemma check_parameters_middle_pass annotations pre name val post :
  instance_of_declared annotations name val = true →
  check_parameters annotations (pre ++ (name, val) :: post)
  = check_parameters annotations (pre ++ post).
Proof.
  intros H. rewrite !check_parameters_app.
  by rewrite check_parameters_cons_pass.
Qed.

Lemma check_parameters_mismatch annotations pre name val T post :
  annotations !! name = Some (AClass T) →
  issubclass (type_of val) T = false →
  ∃ e, check_parameters annotations (pre ++ (name, val) :: post) = Err e
       ∧ exn_class e = "TypeError"
       ∧ (check_parameters annotations pre = Ok ()
          → e = arg_mismatch name (AClass T) val).
Proof.
  intros Ha Hs. rewrite check_parameters_app.
  destruct (check_parameters annotations pre) as [[]|e] eqn:Hpre; simpl.
  - rewrite Ha. simpl. rewrite Hs. eauto.
  - exists e. split; [done|]. split; [|done].
    by eapply check_parameters_TypeError.
Qed.

(** The loop stops at the first parameter whose check does not pass. *)
Lemma check_parameters_first_offender annotations callargs e :
  check_parameters annotations callargs = Err e →
  ∃ pre name val a post,
    callargs = pre ++ (name, val) :: post
    ∧ check_parameters annotations pre = Ok ()
    ∧ annotations !! name = Some a
    ∧ ((isinstance val a = Ok false ∧ e = arg_mismatch name a val)
       ∨ isinstance val a = Err e).
Proof.
  induction callargs as [|[name val] callargs IH]; simpl; [done|].
  assert (Hskip : check_parameters annotations [(name, val)] = Ok () →
            check_parameters annotations callargs = Err e →
            ∃ pre name' val' a post,
              (name, val) :: callargs = pre ++ (name', val') :: post
              ∧ check_parameters annotations pre = Ok ()
              ∧ annotations !! name' = Some a
              ∧ ((isinstance val' a = Ok false
                  ∧ e = arg_mismatch name' a val')
                 ∨ isinstance val' a = Err e)).
  { intros Hhead (pre & name' & val' & a' & post & -> & Hpre & H')%IH.
    exists ((name, val) :: pre), name', val', a', post.
    split; [done|]. split; [|done].
    change ((name, val) :: pre) with ([(name, val)] ++ pre).
    by rewrite check_parameters_app, Hhead. }
  destruct (annotations !! name) as [a|] eqn:Ha.
  - destruct (isinstance val a) as [[]|e'] eqn:Hi; simpl.
    + apply Hskip. simpl. by rewrite Ha, Hi.
    + intros [= <-]. exists [], name, val, a, callargs.
      split; [done|]. split; [done|]. split; [done|]. by left.
    + intros [= <-]. exists [], name, val, a, callargs.
      split; [done|]. split; [done|]. split; [done|]. by right.
  - apply Hskip. simpl. by rewrite Ha.
Qed.


(** ** Errors of the binding step *)

Lemma bind_named_TypeError c possible named arg2value e :
  bind_named c possible named arg2value = Err e → exn_class e = "TypeError".
Proof.
  revert arg2value.
  induction named as [|[kw val] named IH]; intros arg2value; simpl; [done|].
  case_bool_decide.
  - destruct (dict_has kw arg2value); [by intros [= <-]|apply IH].
  - destruct (co_varkw c); [apply IH|by intros [= <-]].
Qed.

Lemma getcallargs_TypeError c positional named e :
  getcallargs c positional named = Err e → exn_class e = "TypeError".
Proof.
  unfold getcallargs.
  destruct (bind_named _ _ _ _) as [a|e'] eqn:Hn; simpl.
  2:{ intros [= <-]. by eapply bind_named_TypeError. }
  unfold bind_defaults, bind_kwonly.
  destruct (_ && _); [by intros [= <-]|].
  destruct (_ <? _); simpl.
  - destruct (forallb _ _); simpl; [|by intros [= <-]].
    destruct (foldl _ _ _) as [a' missing].
    destruct (negb _); [by intros [= <-]|done].
  - destruct (foldl _ _ _) as [a' missing].
    destruct (negb _); [by intros [= <-]|done].
Qed.

Section Wrapper.
Context {World : Type}.
Implicit Types (st : state World) (w : closure World) (F : pyfunction World).

Lemma optional_typecheck_closure F st w :
  optional_typecheck F st = Ok w →
  w_function w = F ∧ fn_annotations st !! f_id F = Some (w_annotations w).
Proof.
  unfold optional_typecheck.
  destruct (fn_annotations st !! f_id F); [|done]. by intros [= <-].
Qed.

Lemma wrapper_check_failed w args kwargs st e :
  check_call w args kwargs st = Err e →
  wrapper w args kwargs st = (Raise e, st).
Proof. unfold wrapper. by intros ->. Qed.

(** A failed check decides the outcome without looking at the body. *)
Lemma wrapper_check_failed_any_body w args kwargs st e :
  check_call w args kwargs st = Err e →
  ∀ body,
    wrapper (Closure (PyFunction (f_id (w_function w))
                        (f_code (w_function w)) body)
               (w_annotations w)) args kwargs st
    = (Raise e, st).
Proof. intros Hc body. by apply wrapper_check_failed. Qed.

Lemma check_call_TypeError w args kwargs st e :
  check_call w args kwargs st = Err e → exn_class e = "TypeError".
Proof.
  unfold check_call.
  destruct (getcallargs _ args kwargs) as [callargs|e'] eqn:Hb; simpl.
  - apply check_parameters_TypeError.
  - intros [= <-]. revert Hb. apply getcallargs_TypeError.
Qed.

(** ** The wrapper, claim by claim *)

(** C1, as amended: when [inspect.getcallargs] binds the arguments, every
    bound value is an instance of the type declared for its parameter, and
    the value [F] returns is an instance of the declared return type (if
    any), the wrapped call and the direct call give the same outcome and
    leave the same store. *)
Theorem wrapper_pass_through F st0 w args kwargs st callargs :
  optional_typecheck F st0 = Ok w →
  getcallargs (f_code F) args kwargs = Ok callargs →
  forallb (λ p, instance_of_declared (deref st (w_annotations w)) p.1 p.2)
          callargs = true →
  return_of_declared w (call_function F args kwargs st) = true →
  wrapper w args kwargs st = call_function F args kwargs st.
Proof.
  intros [Hf _]%optional_typecheck_closure Hb Hp Hr.
  unfold wrapper, check_call. rewrite Hf, Hb. simpl.
  rewrite (check_parameters_Ok _ _ Hp).
  destruct (call_function F args kwargs st) as [[res|e] st']; [|done].
  simpl in Hr. unfold instance_of_declared in Hr. unfold check_return.
  destruct (deref st' (w_annotations w) !! "return") as [a|]; [|done].
  by destruct (isinstance res a) as [[]|].
Qed.

(** C2, as amended: a bound value that is not an instance of the class
    declared for its parameter makes the wrapper raise a [TypeError] and
    leave the store as it found it, whatever the body of [F] is: the body
    did not run.  The loop stops at the first bound parameter whose check
    does not pass and the error is the one of that parameter; it names
    this parameter, its declared type and the type of its value when the
    parameters bound before it pass their checks. *)
Theorem wrapper_rejects_parameter F st0 w args kwargs st pre name val post T :
  optional_typecheck F st0 = Ok w →
  getcallargs (f_code F) args kwargs = Ok (pre ++ (name, val) :: post) →
  deref st (w_annotations w) !! name = Some (AClass T) →
  issubclass (type_of val) T = false →
  ∃ e, wrapper w args kwargs st = (Raise e, st)
       ∧ (∀ body,
            wrapper (Closure (PyFunction (f_id F) (f_code F) body)
                       (w_annotations w)) args kwargs st
            = (Raise e, st))
       ∧ exn_class e = "TypeError"
       ∧ (∃ pre' name' val' a' post',
            pre ++ (name, val) :: post = pre' ++ (name', val') :: post'
            ∧ check_parameters (deref st (w_annotations w)) pre' = Ok ()
            ∧ deref st (w_annotations w) !! name' = Some a'
            ∧ ((isinstance val' a' = Ok false
                ∧ e = arg_mismatch name' a' val')
               ∨ isinstance val' a' = Err e))
       ∧ (check_parameters (deref st (w_annotations w)) pre = Ok ()
          → e = arg_mismatch name (AClass T) val
            ∧ exn_msg e
              = "Expected argument '" +:+ name +:+ "' of type "
                +:+ ("<class '" +:+ cls_name T +:+ "'>") +:+ " but got "
                +:+ ("<class '" +:+ cls_name (type_of val) +:+ "'>")
                +:+ ".").
Proof.
  intros [Hf _]%optional_typecheck_closure Hb Ha Hs.
  destruct (check_parameters_mismatch _ pre name val T post Ha Hs)
    as (e & He & Hc & Hfirst).
  assert (Hfail : check_call w args kwargs st = Err e).
  { unfold check_call. by rewrite Hf, Hb. }
  exists e. split; [|split; [|split; [done|split]]].
  - by apply wrapper_check_failed.
  - rewrite <- Hf. by apply wrapper_check_failed_any_body.
  - by apply check_parameters_first_offender.
  - intros Hpre. by rewrite (Hfirst Hpre).
Qed.

(** C3: when the checks of the parameters pass and [F] returns a value
    that is not an instance of the class declared for the return, the
    wrapper raises the return [TypeError], and the store is the one [F]
    left: its effects stay. *)
Theorem wrapper_rejects_return F st0 w args kwargs st res st' T :
  optional_typecheck F st0 = Ok w →
  check_call w args kwargs st = Ok () →
  call_function F args kwargs st = (Return res, st') →
  deref st' (w_annotations w) !! "return" = Some (AClass T) →
  issubclass (type_of res) T = false →
  wrapper w args kwargs st = (Raise (return_mismatch (AClass T) res), st')
  ∧ exn_msg (return_mismatch (AClass T) res)
    = "Expected return of type " +:+ str_of_cls T
      +:+ " but got " +:+ str_of_cls (type_of res) +:+ ".".
Proof.
  intros [Hf _]%optional_typecheck_closure Hc Hcall Ha Hs.
  split; [|done].
  unfold wrapper. rewrite Hc, Hf, Hcall. unfold check_return.
  rewrite Ha. simpl. by rewrite Hs.
Qed.


(** C5: a parameter without annotation is skipped by the parameter loop
    whatever its value, and without a return annotation whatever [F]
    returns is returned by the wrapper. *)
Theorem unannotated_never_checked F st0 w args kwargs st res st' :
  optional_typecheck F st0 = Ok w →
  check_call w args kwargs st = Ok () →
  call_function F args kwargs st = (Return res, st') →
  deref st' (w_annotations w) !! "return" = None →
  wrapper w args kwargs st = (Return res, st')
  ∧ ∀ annotations name val pre post,
      annotations !! name = None →
      check_parameters annotations (pre ++ (name, val) :: post)
      = check_parameters annotations (pre ++ post).
Proof.
  intros [Hf _]%optional_typecheck_closure Hc Hcall Ha. split.
  - unfold wrapper. rewrite Hc, Hf, Hcall. unfold check_return. by rewrite Ha.
  - intros annotations name val pre post Hn.
    apply check_parameters_middle_pass. unfold instance_of_declared.
    by rewrite Hn.
Qed.

(** C6: an error raised by [F] after the parameter checks passed comes
    out of the wrapper as it is, with the store [F] left. *)
Theorem wrapper_propagates_error F st0 w args kwargs st e st' :
  optional_typecheck F st0 = Ok w →
  check_call w args kwargs st = Ok () →
  call_function F args kwargs st = (Raise e, st') →
  wrapper w args kwargs st = (Raise e, st').
Proof.
  intros [Hf _]%optional_typecheck_closure Hc Hcall.
  unfold wrapper. by rewrite Hc, Hf, Hcall.
Qed.

(** C7, as amended: the wrapper holds the reference to the annotation
    dictionary that [F] had when it was wrapped, not a copy.  A change
    made in place to that dictionary is what the wrapper reads from then
    on; rebinding [F.__annotations__] to another dictionary changes
    neither the dictionary the wrapper consults nor the checks of the
    parameters, and for a body that does not depend on the rebinding the
    whole wrapped call is the same. *)
Theorem annotations_rebinding_unobserved F st0 w l' args kwargs st :
  optional_typecheck F st0 = Ok w →
  fn_annotations st0 !! f_id F = Some (w_annotations w)
  ∧ (∀ name a,
       fn_annotations st !! f_id F = Some (w_annotations w) →
       deref (annotations_setitem F name a st) (w_annotations w)
       = <[name := a]> (deref st (w_annotations w)))
  ∧ deref (annotations_rebind F l' st) (w_annotations w)
    = deref st (w_annotations w)
  ∧ check_call w args kwargs (annotations_rebind F l' st)
    = check_call w args kwargs st
  ∧ (call_function F args kwargs (annotations_rebind F l' st)
     = (let '(o, st1) := call_function F args kwargs st in
        (o, annotations_rebind F l' st1))
     → wrapper w args kwargs (annotations_rebind F l' st)
       = (let '(o, st1) := wrapper w args kwargs st in
          (o, annotations_rebind F l' st1))).
Proof.
  intros [Hf Hl]%optional_typecheck_closure.
  split; [done|]. split.
  { intros name a Hcur. unfold annotations_setitem. rewrite Hcur.
    unfold deref at 1. simpl. by rewrite lookup_insert_eq. }
  split; [done|]. split; [done|].
  intros Hbody. unfold wrapper.
  change (check_call w args kwargs (annotations_rebind F l' st))
    with (check_call w args kwargs st).
  destruct (check_call w args kwargs st); [|done].
  rewrite Hf, Hbody.
  destruct (call_function F args kwargs st) as [[res|e] st1]; [|done].
  change (deref (annotations_rebind F l' st1) (w_annotations w))
    with (deref st1 (w_annotations w)).
  by destruct (check_return _ res).
Qed.

(** C9: the errors of the binding step, of the parameter checks and of the
    return check all have the class [TypeError], and whatever else the
    wrapper raises was raised by the call of [F]; a [TypeError] of [F]
    itself comes out with that same class. *)
Theorem wrapper_errors_are_TypeError F st0 w args kwargs st :
  optional_typecheck F st0 = Ok w →
  (∀ e, getcallargs (f_code F) args kwargs = Err e →
        wrapper w args kwargs st = (Raise e, st)
        ∧ exn_class e = "TypeError")
  ∧ (∀ callargs e,
        getcallargs (f_code F) args kwargs = Ok callargs →
        check_parameters (deref st (w_annotations w)) callargs = Err e →
        wrapper w args kwargs st = (Raise e, st)
        ∧ exn_class e = "TypeError")
  ∧ (∀ res st' e,
        check_call w args kwargs st = Ok () →
        call_function F args kwargs st = (Return res, st') →
        check_return (deref st' (w_annotations w)) res = Err e →
        wrapper w args kwargs st = (Raise e, st')
        ∧ exn_class e = "TypeError")
  ∧ (∀ msg st',
        check_call w args kwargs st = Ok () →
        call_function F args kwargs st = (Raise (TypeError msg), st') →
        wrapper w args kwargs st = (Raise (TypeError msg), st')
        ∧ exn_class (TypeError msg) = "TypeError")
  ∧ (∀ e st', wrapper w args kwargs st = (Raise e, st') →
        exn_class e = "TypeError"
        ∨ call_function F args kwargs st = (Raise e, st')).
Proof.
  intros [Hf _]%optional_typecheck_closure.
  split; [|split; [|split; [|split]]].
  - intros e He. split; [|by eapply getcallargs_TypeError].
    apply wrapper_check_failed. unfold check_call. by rewrite Hf, He.
  - intros callargs e Hb He. split; [|by eapply check_parameters_TypeError].
    apply wrapper_check_failed. unfold check_call. by rewrite Hf, Hb.
  - intros res st' e Hc Hcall Hr. split; [|by eapply check_return_TypeError].
    unfold wrapper. by rewrite Hc, Hf, Hcall, Hr.
  - intros msg st' Hc Hcall. split; [|done].
    unfold wrapper. by rewrite Hc, Hf, Hcall.
  - intros e st'. unfold wrapper.
    destruct (check_call w args kwargs st) as [[]|e'] eqn:Hc.
    + rewrite Hf.
      destruct (call_function F args kwargs st) as [[res|e1] st1];
        [|by right].
      destruct (check_return _ res) as [[]|e1] eqn:Hr; [done|].
      intros [= <- <-]. left. by eapply check_return_TypeError.
    + intros [= <- <-]. left. by eapply check_call_TypeError.
Qed.

End Wrapper.

(** ** Reading a dictionary after an update *)

Lemma dict_get_set_eq {V} (k : string) (v : V) (d : dict V) :
  dict_get k (dict_set k v d) = Some v.
Proof.
  induction d as [|[k' v'] d IH]; simpl.
  - by rewrite decide_True.
  - destruct (decide (k' = k)) as [->|Hne]; simpl.
    + by rewrite decide_True.
    + by rewrite decide_False.
Qed.

Lemma dict_get_set_ne {V} (k k' : string) (v : V) (d : dict V) :
  k ≠ k' → dict_get k' (dict_set k v d) = dict_get k' d.
Proof.
  intros Hne. induction d as [|[k1 v1] d IH]; simpl.
  - by rewrite decide_False.
  - destruct (decide (k1 = k)) as [->|Hne1]; simpl.
    + by rewrite !decide_False.
    + by rewrite IH.
Qed.

Lemma dict_get_split {V} (k : string) (v : V) (d : dict V) :
  dict_get k d = Some v → ∃ pre post, d = pre ++ (k, v) :: post.
Proof.
  induction d as [|[k' v'] d IH]; simpl; [done|].
  destruct (decide (k' = k)) as [->|Hne].
  - intros [= ->]. by exists [], d.
  - intros (pre & post & ->)%IH. by exists ((k', v') :: pre), post.
Qed.

Lemma kwdict_setitem_get_ne varkw kw val d k :
  varkw ≠ k → dict_get k (kwdict_setitem varkw kw val d) = dict_get k d.
Proof.
  intros Hne. unfold kwdict_setitem.
  destruct (dict_get varkw d) as [[]|]; try done.
  by apply dict_get_set_ne.
Qed.

(** ** [inspect.getcallargs], step by step *)

Lemma bind_positional_get_other args positional d k :
  k ∉ args → dict_get k (bind_positional args positional d) = dict_get k d.
Proof.
  unfold bind_positional. revert positional d.
  induction args as [|a args IH]; intros [|p positional] d Hk; simpl; try done.
  rewrite IH by set_solver. apply dict_get_set_ne. set_solver.
Qed.

Lemma bind_positional_get args positional d i k :
  NoDup args → args !! i = Some k →
  dict_get k (bind_positional args positional d)
  = match positional !! i with Some v => Some v | None => dict_get k d end.
Proof.
  unfold bind_positional. revert positional d i.
  induction args as [|a args IH]; intros positional d i Hnd Hi; [done|].
  apply NoDup_cons in Hnd as [Ha Hnd].
  destruct positional as [|p positional].
  { by destruct i. }
  destruct i as [|i]; simpl in *.
  - injection Hi as ->.
    fold (bind_positional args positional (dict_set k p d)).
    rewrite bind_positional_get_other by done. apply dict_get_set_eq.
  - rewrite (IH _ _ i Hnd Hi). destruct (positional !! i); [done|].
    apply dict_get_set_ne. intros ->. apply Ha. by eapply list_elem_of_lookup_2.
Qed.


Lemma fill_defaults_get_other args defaults d k :
  k ∉ args → dict_get k (fill_defaults args defaults d) = dict_get k d.
Proof.
  unfold fill_defaults. revert defaults d.
  induction args as [|a args IH]; intros [|v defaults] d Hk; simpl; try done.
  rewrite IH by set_solver. destruct (dict_has a d); [done|].
  apply dict_get_set_ne. set_solver.
Qed.

Lemma fill_defaults_get_present args defaults d k v :
  dict_get k d = Some v → dict_get k (fill_defaults args defaults d) = Some v.
Proof.
  unfold fill_defaults. revert defaults d.
  induction args as [|a args IH]; intros [|v' defaults] d Hk; simpl; try done.
  apply IH. destruct (dict_has a d) eqn:Hh; [done|].
  rewrite dict_get_set_ne; [done|]. intros ->.
  apply dict_has_false in Hh. congruence.
Qed.

Lemma fill_defaults_get args defaults d i k v :
  args !! i = Some k → defaults !! i = Some v → k ∉ take i args →
  dict_get k d = None →
  dict_get k (fill_defaults args defaults d) = Some v.
Proof.
  unfold fill_defaults. revert defaults d i.
  induction args as [|a args IH]; intros [|v' defaults] d i Hi Hv Hk Hd;
    try done.
  destruct i as [|i]; simpl in *.
  - injection Hi as ->. injection Hv as ->.
    apply (fill_defaults_get_present args defaults).
    apply dict_has_false in Hd. rewrite Hd. apply dict_get_set_eq.
  - apply not_elem_of_cons in Hk as [Hne Hk].
    apply (IH _ _ i Hi Hv Hk). destruct (dict_has a d); [done|].
    by rewrite dict_get_set_ne.
Qed.


(** ** The interpreter's slots against the mapping of [getcallargs] *)

Lemma dict_has_slot_filled k (d : dict value) :
  dict_has k d = slot_filled (dict_get k d).
Proof.
  destruct (dict_get k d) eqn:Hd; simpl.
  - apply dict_has_true. by rewrite Hd.
  - by apply dict_has_false.
Qed.

Lemma find_name_Some kw names j :
  find_name kw names = Some j → names !! j = Some kw.
Proof.
  revert j. induction names as [|name names IH]; intros j; simpl; [done|].
  destruct (decide (name = kw)) as [->|Hne].
  - by intros [= <-].
  - destruct (find_name kw names) as [j'|]; simpl; [|done].
    intros [= <-]. by apply IH.
Qed.

Lemma find_name_None kw names : find_name kw names = None → kw ∉ names.
Proof.
  induction names as [|name names IH]; simpl; [intros _; apply not_elem_of_nil|].
  destruct (decide (name = kw)) as [->|Hne]; [done|].
  destruct (find_name kw names); simpl; [done|].
  intros _. apply not_elem_of_cons. split; [done|by apply IH].
Qed.

Lemma find_name_elem kw names : kw ∈ names → is_Some (find_name kw names).
Proof.
  intros Hin. destruct (find_name kw names) eqn:Hf; [done|].
  by apply find_name_None in Hf.
Qed.

Lemma wf_funcspec_unpack c :
  wf_funcspec c = true →
  NoDup (co_args c ++ co_kwonlyargs c)
  ∧ (∀ k, co_varargs c = Some k → k ∉ co_args c ++ co_kwonlyargs c)
  ∧ (∀ k, co_varkw c = Some k → k ∉ co_args c ++ co_kwonlyargs c)
  ∧ length (co_defaults c) ≤ length (co_args c).
Proof.
  unfold wf_funcspec, param_names.
  intros [[Hnd%bool_decide_eq_true Hd%bool_decide_eq_true]%andb_prop _]%andb_prop.
  rewrite app_assoc in Hnd.
  apply NoDup_app in Hnd as (Hnames & Hdisj & Hrest).
  split; [done|]. split; [|split; [|done]].
  - intros k Hk Hin. apply (Hdisj k Hin). rewrite Hk. simpl. constructor.
  - intros k Hk Hin. apply (Hdisj k Hin). rewrite Hk.
    apply elem_of_app. right. constructor.
Qed.

Lemma initial_bindings_get c positional k :
  wf_funcspec c = true → k ∈ co_args c ++ co_kwonlyargs c →
  dict_get k (initial_bindings c positional)
  = dict_get k (bind_positional (co_args c) positional []).
Proof.
  intros (_ & Hva & Hvk & _)%wf_funcspec_unpack Hin. unfold initial_bindings.
  assert (Hskip : ∀ va v (d : dict value), co_varargs c = Some va →
            dict_get k (dict_set va v d) = dict_get k d).
  { intros va v d Ha. apply dict_get_set_ne. intros Heq.
    apply (Hva va Ha). by rewrite Heq. }
  destruct (co_varkw c) as [vk|] eqn:Hk.
  { rewrite dict_get_set_ne.
    - destruct (co_varargs c) as [va|] eqn:Ha; [by apply Hskip|done].
    - intros Heq. apply (Hvk vk eq_refl). by rewrite Heq. }
  destruct (co_varargs c) as [va|] eqn:Ha; [by apply Hskip|done].
Qed.

Lemma initial_slots_of c positional :
  wf_funcspec c = true →
  initial_slots c positional = slots_of c (initial_bindings c positional).
Proof.
  intros Hwf. pose proof (wf_funcspec_unpack _ Hwf) as (Hnd & _ & _ & _).
  apply list_eq. intros i. unfold slots_of, initial_slots.
  rewrite list_lookup_fmap.
  set (n := length positional `min` length (co_args c)).
  assert (Hlen : length (Some <$> take n positional) = n).
  { rewrite length_fmap, length_take. lia. }
  destruct ((co_args c ++ co_kwonlyargs c) !! i) as [k|] eqn:Hi; simpl.
  - rewrite initial_bindings_get by (done || by eapply list_elem_of_lookup_2).
    pose proof (lookup_lt_Some _ _ _ Hi) as Hlt.
    destruct (decide (i < length (co_args c))) as [Hia|Hia].
    + rewrite lookup_app_l in Hi by done.
      apply NoDup_app in Hnd as (Hnda & _ & _).
      rewrite (bind_positional_get _ _ _ i k Hnda Hi). simpl.
      destruct (decide (i < n)) as [Hin|Hin].
      * rewrite lookup_app_l by lia.
        rewrite list_lookup_fmap, lookup_take_lt by done.
        destruct (positional !! i) eqn:Hp; [done|].
        apply lookup_ge_None in Hp. lia.
      * rewrite lookup_app_r by lia. rewrite Hlen.
        rewrite lookup_replicate_2 by (rewrite length_app in *; lia).
        rewrite (lookup_ge_None_2 positional) by lia. done.
    + rewrite lookup_app_r in Hi by lia.
      rewrite bind_positional_get_other.
      * assert (n ≤ i) by (unfold n; lia).
        rewrite lookup_app_r by lia. rewrite Hlen.
        by rewrite lookup_replicate_2 by (rewrite length_app in *; lia).
      * apply NoDup_app in Hnd as (_ & Hdisj & _). intros Hk.
        apply (Hdisj k Hk). by eapply list_elem_of_lookup_2.
  - apply lookup_ge_None in Hi. apply lookup_ge_None.
    rewrite length_app, Hlen, length_replicate.
    rewrite length_app in *. unfold n. lia.
Qed.

Lemma slots_of_length c (d : dict value) :
  length (slots_of c d) = length (co_args c ++ co_kwonlyargs c).
Proof. unfold slots_of. by rewrite length_fmap. Qed.

Lemma slots_of_lookup c (d : dict value) i k :
  (co_args c ++ co_kwonlyargs c) !! i = Some k →
  slots_of c d !! i = Some (dict_get k d).
Proof. unfold slots_of. rewrite list_lookup_fmap. by intros ->. Qed.

Lemma slots_of_ext c (d d' : dict value) :
  (∀ k, k ∈ co_args c ++ co_kwonlyargs c → dict_get k d' = dict_get k d) →
  slots_of c d' = slots_of c d.
Proof.
  intros H. apply list_eq. intros i. unfold slots_of.
  rewrite !list_lookup_fmap.
  destruct ((co_args c ++ co_kwonlyargs c) !! i) as [k|] eqn:Hi; simpl; [|done].
  f_equal. apply H. by eapply list_elem_of_lookup_2.
Qed.

Lemma slots_of_set c (d : dict value) k v j :
  NoDup (co_args c ++ co_kwonlyargs c) →
  (co_args c ++ co_kwonlyargs c) !! j = Some k →
  slots_of c (dict_set k v d) = <[j := Some v]> (slots_of c d).
Proof.
  intros Hnd Hj. apply list_eq. intros i.
  destruct (decide (j = i)) as [<-|Hne].
  - rewrite list_lookup_insert_eq
      by (rewrite slots_of_length; by eapply lookup_lt_Some).
    by rewrite (slots_of_lookup _ _ _ _ Hj), dict_get_set_eq.
  - rewrite list_lookup_insert_ne by done. unfold slots_of.
    rewrite !list_lookup_fmap.
    destruct ((co_args c ++ co_kwonlyargs c) !! i) as [k'|] eqn:Hi; simpl;
      [|done].
    rewrite dict_get_set_ne; [done|]. intros Heq. apply Hne.
    rewrite Heq in Hj. by eapply NoDup_lookup.
Qed.

(** A keyword that names no positional-only parameter is found by the
    interpreter where it stands among all the parameters. *)
Lemma find_name_drop kw names p :
  kw ∉ take p names →
  (λ j, p + j) <$> find_name kw (drop p names) = find_name kw names.
Proof.
  revert p. induction names as [|name names IH]; intros [|p] Hkw; simpl.
  - done.
  - done.
  - destruct (decide (name = kw)); [done|]. by destruct (find_name kw names).
  - simpl in Hkw. apply not_elem_of_cons in Hkw as [Hne Hkw].
    rewrite decide_False by done. rewrite <- (IH p Hkw).
    by destruct (find_name kw (drop p names)).
Qed.

Lemma find_param_all c kw :
  wf_funcspec c = true →
  kw ∉ take (co_posonlyargcount c) (co_args c) →
  find_param c kw = find_name kw (co_args c ++ co_kwonlyargs c).
Proof.
  unfold wf_funcspec. intros [_ Hp%bool_decide_eq_true]%andb_prop Hkw.
  unfold find_param. apply find_name_drop. by rewrite take_app_le.
Qed.

Lemma names_posonly_cons c kw val named :
  names_posonly c ((kw, val) :: named) = false
  ↔ (kw ∉ take (co_posonlyargcount c) (co_args c))
    ∧ names_posonly c named = false.
Proof.
  unfold names_posonly. simpl.
  by rewrite orb_false_iff, bool_decide_eq_false.
Qed.

Lemma names_posonly_zero c named :
  co_posonlyargcount c = 0 → names_posonly c named = false.
Proof.
  intros Hpos. induction named as [|[kw val] named IH]; [done|].
  apply names_posonly_cons. split; [|done].
  rewrite Hpos. apply not_elem_of_nil.
Qed.

(** The loop over the keywords: both binders fail together, and when they
    succeed the slots still describe the mapping. *)
Lemma keywords_simulation c named (d : dict value) kwdict :
  wf_funcspec c = true → names_posonly c named = false →
  match bind_named c (co_args c ++ co_kwonlyargs c) named d,
        handle_keywords c named (slots_of c d) kwdict with
  | Ok d', Ok (slots', _) =>
      slots' = slots_of c d'
      ∧ ∀ k v, k ∈ co_args c ++ co_kwonlyargs c →
               dict_get k d = Some v → dict_get k d' = Some v
  | Err _, Err _ => True
  | _, _ => False
  end.
Proof.
  intros Hwf Hpos.
  pose proof (wf_funcspec_unpack _ Hwf) as (Hnd & _ & Hvk & _).
  revert d kwdict.
  induction named as [|[kw val] named IH]; intros d kwdict; simpl; [done|].
  apply names_posonly_cons in Hpos as [Hkw Hpos]. specialize (IH Hpos).
  rewrite (find_param_all c kw Hwf Hkw).
  case_bool_decide as Hin.
  - destruct (find_name_elem kw _ Hin) as [j Hj]. rewrite Hj. simpl.
    apply find_name_Some in Hj.
    rewrite (slots_of_lookup _ _ _ _ Hj). simpl.
    rewrite dict_has_slot_filled.
    destruct (dict_get kw d) eqn:Hd; simpl; [done|].
    rewrite <- (slots_of_set c d kw val j Hnd Hj).
    specialize (IH (dict_set kw val d) kwdict).
    destruct (bind_named _ _ _ _) as [d'|];
      destruct (handle_keywords _ _ _ _) as [[slots' kd']|]; try done.
    destruct IH as [-> HJ]. split; [done|].
    intros k v Hk Hv. apply HJ; [done|].
    rewrite dict_get_set_ne; [done|]. intros Heq. congruence.
  - destruct (find_name kw _) as [j|] eqn:Hf.
    { apply find_name_Some, list_elem_of_lookup_2 in Hf. done. }
    simpl. destruct (co_varkw c) as [vk|] eqn:Hk.
    + assert (Hget : ∀ k, k ∈ co_args c ++ co_kwonlyargs c →
                dict_get k (kwdict_setitem vk kw val d) = dict_get k d).
      { intros k Hkin. apply kwdict_setitem_get_ne. intros Heq.
        apply (Hvk vk eq_refl). by rewrite Heq. }
      rewrite <- (slots_of_ext c d _ Hget).
      specialize (IH (kwdict_setitem vk kw val d) (dict_set kw val kwdict)).
      destruct (bind_named _ _ _ _) as [d'|];
        destruct (handle_keywords _ _ _ _) as [[slots' kd']|]; try done.
      destruct IH as [-> HJ]. split; [done|].
      intros k v Hkin Hv. apply HJ; [done|]. by rewrite Hget.
    + by case_bool_decide.
Qed.

(** ** The positional defaults *)

Lemma forallb_dict_has (d : dict value) l :
  forallb (λ arg, dict_has arg d) l = true
  ↔ Forall (λ arg, is_Some (dict_get arg d)) l.
Proof.
  induction l as [|a l IH]; simpl.
  - split; [constructor|done].
  - rewrite andb_true_iff, IH, dict_has_true, Forall_cons. done.
Qed.

Lemma unfilled_fmap_nil (f : string → option value) l :
  length (unfilled l (f <$> l)) = 0
  ↔ Forall (λ arg, is_Some (f arg)) l.
Proof.
  unfold unfilled. rewrite length_fmap.
  induction l as [|a l IH].
  - split; [constructor|done].
  - rewrite fmap_cons.
    change (zip (a :: l) (f a :: (f <$> l))) with ((a, f a) :: zip l (f <$> l)).
    rewrite filter_cons, Forall_cons.
    destruct (f a) as [v|] eqn:Hf.
    + rewrite decide_False by done. rewrite IH. split; [by eauto|by intros []].
    + rewrite decide_True by done.
      split; [done|]. by intros [[] _].
Qed.

Lemma elem_of_drop_1 {A} (x : A) n l : x ∈ drop n l → x ∈ l.
Proof.
  intros [i Hi]%list_elem_of_lookup. rewrite lookup_drop in Hi.
  by eapply list_elem_of_lookup_2.
Qed.

Lemma copy_defaults_drop m i0 defs slots N :
  m + length defs ≤ N →
  drop N (copy_defaults m i0 defs slots) = drop N slots.
Proof.
  intros Hle. unfold copy_defaults.
  assert (Hall : Forall (λ i, m + i < N) (seq i0 (length defs - i0))).
  { apply Forall_forall. intros i [Hi0 Hi]%elem_of_seq. lia. }
  revert slots Hall.
  induction (seq i0 (length defs - i0)) as [|i rest IH]; intros slots Hall;
    simpl; [done|].
  apply Forall_cons in Hall as [Hi Hall]. rewrite IH by done.
  destruct (slot_filled _); [done|]. by apply drop_insert_lt.
Qed.

Lemma copy_defaults_length m i0 defs slots :
  length (copy_defaults m i0 defs slots) = length slots.
Proof.
  unfold copy_defaults. revert slots.
  induction (seq i0 (length defs - i0)) as [|i rest IH]; intros slots;
    simpl; [done|].
  rewrite IH. destruct (slot_filled _); [done|]. apply length_insert.
Qed.

Lemma slots_of_drop c (d : dict value) :
  drop (length (co_args c)) (slots_of c d)
  = (λ name, dict_get name d) <$> co_kwonlyargs c.
Proof. unfold slots_of. by rewrite fmap_app, drop_app_length' by by rewrite length_fmap. Qed.

Lemma slots_of_take c (d : dict value) m :
  m ≤ length (co_args c) →
  take m (slots_of c d) = (λ name, dict_get name d) <$> take m (co_args c).
Proof.
  intros Hm. unfold slots_of.
  by rewrite fmap_app, take_app_le, fmap_take by by rewrite length_fmap.
Qed.

(** The tests on the positional parameters: both binders fail together,
    and the slots of the keyword-only parameters still describe the
    mapping. *)
Lemma defaults_simulation c argcount (d : dict value) :
  wf_funcspec c = true →
  (∀ i k, i < argcount → co_args c !! i = Some k → is_Some (dict_get k d)) →
  match bind_defaults c argcount d, slots_defaults c argcount (slots_of c d) with
  | Ok d', Ok slots' =>
      drop (length (co_args c)) slots'
      = (λ name, dict_get name d') <$> co_kwonlyargs c
      ∧ length slots' = length (co_args c ++ co_kwonlyargs c)
  | Err _, Err _ => True
  | _, _ => False
  end.
Proof.
  intros Hwf HJ.
  pose proof (wf_funcspec_unpack _ Hwf) as (Hnd & _ & _ & Hdef).
  unfold bind_defaults, slots_defaults.
  destruct (_ && _); [done|].
  destruct (argcount <? length (co_args c)) eqn:Hlt.
  2:{ split; [apply slots_of_drop|apply slots_of_length]. }
  apply Nat.ltb_lt in Hlt.
  set (m := length (co_args c) - length (co_defaults c)).
  rewrite slots_of_take by (unfold m; lia). rewrite <- fmap_drop.
  destruct (forallb _ _) eqn:Hall.
  - apply forallb_dict_has in Hall.
    assert (Hz : length (unfilled (drop argcount (take m (co_args c)))
                   ((λ name, dict_get name d)
                      <$> drop argcount (take m (co_args c)))) = 0).
    { apply unfilled_fmap_nil.
      apply Forall_forall. intros k Hk. rewrite Forall_forall in Hall.
      apply Hall. by eapply elem_of_drop_1. }
    rewrite Hz. simpl. split.
    + rewrite copy_defaults_drop by (unfold m; lia).
      rewrite slots_of_drop. apply list_fmap_ext. intros i k Hk.
      symmetry. apply fill_defaults_get_other. intros Hin%elem_of_drop_1.
      apply NoDup_app in Hnd as (_ & Hdisj & _).
      apply (Hdisj k Hin). by eapply list_elem_of_lookup_2.
    + rewrite copy_defaults_length. apply slots_of_length.
  - destruct (length (unfilled _ _)) as [|x] eqn:Hz; [|done].
    apply unfilled_fmap_nil in Hz. rewrite Forall_forall in Hz.
    assert (forallb (λ arg, dict_has arg d) (take m (co_args c)) = true);
      [|congruence].
    apply forallb_dict_has, Forall_lookup. intros i k Hi.
    destruct (decide (i < argcount)) as [Hia|Hia].
    + apply (HJ i k Hia). by apply lookup_take_Some in Hi as [? _].
    + apply Hz. apply list_elem_of_lookup. exists (i - argcount).
      rewrite lookup_drop. rewrite <- Hi. f_equal. lia.
Qed.

(** ** The keyword-only parameters *)

Lemma kwonly_counters c ks :
  ∀ off (d : dict value) slots missing,
    NoDup ks →
    (∀ t k, ks !! t = Some k → co_kwonlyargs c !! (off + t) = Some k) →
    (∀ t k, ks !! t = Some k →
            slots !! (length (co_args c) + off + t) = Some (dict_get k d)) →
    (foldl (kwonly_step (co_kwonlydefaults c)) (d, missing) ks).2
    = (foldl (kwdefault_step c) (slots, missing)
         (seq (length (co_args c) + off) (length ks))).2.
Proof.
  induction ks as [|k ks IH]; intros off d slots missing Hnd Hks Hslots;
    [done|].
  apply NoDup_cons in Hnd as [Hk Hnd].
  pose proof (Hks 0 k eq_refl) as Hk0.
  pose proof (Hslots 0 k eq_refl) as Hs0.
  rewrite Nat.add_0_r in Hk0, Hs0.
  assert (Hks' : ∀ t k', ks !! t = Some k' →
            co_kwonlyargs c !! (S off + t) = Some k').
  { intros t k' Ht. rewrite <- (Hks (S t) k' Ht). f_equal. lia. }
  cbn [length seq foldl]. unfold kwonly_step at 2, kwdefault_step at 2.
  rewrite Hs0. cbn [mjoin option_join].
  replace (length (co_args c) + off - length (co_args c)) with off by lia.
  rewrite Hk0. cbn [mbind option_bind].
  rewrite dict_has_slot_filled.
  replace (S (length (co_args c) + off))
    with (length (co_args c) + S off) by lia.
  destruct (dict_get k d) as [v|] eqn:Hd; cbn [slot_filled].
  - apply IH; [done..|].
    intros t k' Ht. rewrite <- (Hslots (S t) k' Ht). f_equal. lia.
  - destruct (dict_get k (co_kwonlydefaults c)) as [v|].
    + apply IH; [done..|]. intros t k' Ht.
      rewrite list_lookup_insert_ne by lia.
      rewrite dict_get_set_ne.
      * rewrite <- (Hslots (S t) k' Ht). f_equal. lia.
      * intros Heq. apply Hk. rewrite Heq. by eapply list_elem_of_lookup_2.
    + apply IH; [done..|].
      intros t k' Ht. rewrite <- (Hslots (S t) k' Ht). f_equal. lia.
Qed.

Lemma kwonly_simulation c (d : dict value) slots :
  wf_funcspec c = true →
  drop (length (co_args c)) slots
  = (λ name, dict_get name d) <$> co_kwonlyargs c →
  is_ok (bind_kwonly c d) = is_ok (slots_kwdefaults c slots).
Proof.
  intros (Hnd & _)%wf_funcspec_unpack Hdrop.
  apply NoDup_app in Hnd as (_ & _ & Hnd).
  pose proof (kwonly_counters c (co_kwonlyargs c) 0 d slots 0 Hnd) as Heq.
  rewrite Nat.add_0_r in Heq.
  unfold bind_kwonly, slots_kwdefaults.
  destruct (foldl (kwonly_step _) _ _) as [d' m1].
  destruct (foldl (kwdefault_step c) _ _) as [slots' m2].
  simpl in Heq. rewrite Heq.
  - by destruct (negb _).
  - done.
  - intros t k Ht. rewrite <- lookup_drop, Hdrop.
    rewrite list_lookup_fmap. by rewrite Ht.
Qed.

(** ** The two binders fail together *)


Lemma initial_bindings_positional c positional i k :
  wf_funcspec c = true → i < length positional → co_args c !! i = Some k →
  is_Some (dict_get k (initial_bindings c positional)).
Proof.
  intros Hwf Hi Hk.
  pose proof (wf_funcspec_unpack _ Hwf) as (Hnd & _).
  apply NoDup_app in Hnd as (Hnd & _).
  rewrite initial_bindings_get;
    [|done|apply elem_of_app; left; by eapply list_elem_of_lookup_2].
  rewrite (bind_positional_get _ _ _ i k Hnd Hk).
  destruct (positional !! i) eqn:Hp; [done|].
  apply lookup_ge_None in Hp. lia.
Qed.

Lemma getcallargs_bind_call_agree c positional named :
  wf_funcspec c = true → names_posonly c named = false →
  is_ok (getcallargs c positional named) = is_ok (bind_call c positional named).
Proof.
  intros Hwf Hpos. unfold getcallargs, bind_call.
  rewrite (initial_slots_of _ _ Hwf).
  pose proof (keywords_simulation c named (initial_bindings c positional) []
                Hwf Hpos) as Hk.
  destruct (bind_named _ _ _ _) as [d1|];
    destruct (handle_keywords _ _ _ _) as [[slots1 kd]|]; try done.
  destruct Hk as [-> HJ]. simpl.
  pose proof (defaults_simulation c (length positional) d1 Hwf) as Hd.
  destruct (bind_defaults _ _ _) as [d2|];
    destruct (slots_defaults _ _ _) as [slots2|]; simpl.
  - destruct Hd as [Hdrop _].
    { intros i k Hi Hk.
      destruct (initial_bindings_positional c positional i k Hwf Hi Hk)
        as [v Hv].
      exists v. apply HJ; [|done].
      apply elem_of_app. left. by eapply list_elem_of_lookup_2. }
    rewrite (kwonly_simulation c d2 slots2 Hwf Hdrop).
    by destruct (slots_kwdefaults c slots2).
  - exfalso. apply Hd. intros i k Hi Hk.
    destruct (initial_bindings_positional c positional i k Hwf Hi Hk)
      as [v Hv].
    exists v. apply HJ; [|done].
    apply elem_of_app. left. by eapply list_elem_of_lookup_2.
  - exfalso. apply Hd. intros i k Hi Hk.
    destruct (initial_bindings_positional c positional i k Hwf Hi Hk)
      as [v Hv].
    exists v. apply HJ; [|done].
    apply elem_of_app. left. by eapply list_elem_of_lookup_2.
  - done.
Qed.

(** ** Defaults are bound for the parameters a call omits *)

Lemma kwonly_fold_get_present kd ks (d : dict value) missing k v :
  dict_get k d = Some v →
  dict_get k (foldl (kwonly_step kd) (d, missing) ks).1 = Some v.
Proof.
  revert d missing.
  induction ks as [|a ks IH]; intros d missing Hd; [done|].
  cbn [foldl]. unfold kwonly_step at 2.
  destruct (dict_has a d) eqn:Hh; [by apply IH|].
  destruct (dict_get a kd); [|by apply IH].
  apply IH. rewrite dict_get_set_ne; [done|]. intros Heq.
  apply dict_has_false in Hh. congruence.
Qed.




(** ** Binding and defaults, claim by claim *)

(** C8: the binding step of the wrapper and the direct call do not fail
    together.  For [def first(x, /, **kw): return x], the call
    [first(1, x=2)] binds [x = 1] and [kw = {"x": 2}] and returns [1],
    while the wrapper raises the [TypeError] of [inspect.getcallargs],
    which takes the keyword [x] for the positional-only parameter, and
    never runs the body.  The other way round, the binding step accepts
    [first(x=1)], which the direct call cannot bind. *)
Theorem binding_step_disagrees_posonly :
  wf_funcspec (f_code Testsuite.first) = true
  ∧ optional_typecheck Testsuite.first Testsuite.st0
    = Ok (Closure Testsuite.first 7)
  ∧ bind_call (f_code Testsuite.first) [VInt 1] [("x", VInt 2)]
    = Ok [("x", VInt 1); ("kw", VDict [("x", VInt 2)])]
  ∧ call_function Testsuite.first [VInt 1] [("x", VInt 2)] Testsuite.st0
    = (Return (VInt 1), Testsuite.st0)
  ∧ getcallargs (f_code Testsuite.first) [VInt 1] [("x", VInt 2)]
    = Err (TypeError "first() got multiple values for argument 'x'")
  ∧ (∀ body,
       wrapper (Closure (PyFunction 7 (f_code Testsuite.first) body) 7)
         [VInt 1] [("x", VInt 2)] Testsuite.st0
       = (Raise (TypeError "first() got multiple values for argument 'x'"),
          Testsuite.st0))
  ∧ getcallargs (f_code Testsuite.first) [] [("x", VInt 1)]
    = Ok [("kw", VDict []); ("x", VInt 1)]
  ∧ bind_call (f_code Testsuite.first) [] [("x", VInt 1)]
    = Err (TypeError "first() missing 1 required positional argument: 'x'").
Proof. repeat split; reflexivity. Qed.

Section Binding.
Context {World : Type}.
Implicit Types (st : state World) (w : closure World) (F : pyfunction World).


End Binding.

(** * The test suite and the examples, run through the theorems *)

Lemma pass_through_foo :
  wrapper (Closure Testsuite.foo 1) [VInt 1] [] Testsuite.st0
  = call_function Testsuite.foo [VInt 1] [] Testsuite.st0
  ∧ call_function Testsuite.foo [VInt 1] [] Testsuite.st0
    = (Return (VStr "1"), Testsuite.st0).
Proof.
  split; [|reflexivity].
  apply (wrapper_pass_through Testsuite.foo Testsuite.st0
           (Closure Testsuite.foo 1) [VInt 1] [] Testsuite.st0
           [("x", VInt 1)]); reflexivity.
Defined.

(** [bar(1)] of the test suite: the argument is an [int] as declared,
    yet the wrapped call raises where the direct call returns. *)
Lemma pass_through_fails_on_bad_return :
  ∃ w callargs,
    optional_typecheck Testsuite.bar Testsuite.st0 = Ok w
    ∧ getcallargs (f_code Testsuite.bar) [VInt 1] [] = Ok callargs
    ∧ forallb (λ p, instance_of_declared
                      (deref Testsuite.st0 (w_annotations w)) p.1 p.2)
              callargs = true
    ∧ call_function Testsuite.bar [VInt 1] [] Testsuite.st0
      = (Return (VStr "badreturn"), Testsuite.st0)
    ∧ wrapper w [VInt 1] [] Testsuite.st0
      = (Raise (return_mismatch (AClass int_cls) (VStr "badreturn")),
         Testsuite.st0)
    ∧ wrapper w [VInt 1] [] Testsuite.st0
      ≠ call_function Testsuite.bar [VInt 1] [] Testsuite.st0.
Proof.
  exists (Closure Testsuite.bar 2), [("x", VInt 1)].
  repeat split; try reflexivity. intros H. vm_compute in H. discriminate H.
Qed.

Lemma rejects_parameter_tick :
  ∃ e, wrapper (Closure Testsuite.tick 4) [VStr "1"] [] Testsuite.st0
       = (Raise e, Testsuite.st0)
       ∧ e = TypeError
               "Expected argument 'x' of type <class 'int'> but got <class 'str'>.".
Proof.
  destruct (wrapper_rejects_parameter Testsuite.tick Testsuite.st0
              (Closure Testsuite.tick 4) [VStr "1"] [] Testsuite.st0
              [] "x" (VStr "1") [("y", VNone)] int_cls)
    as (e & Hw & _ & _ & _ & He); [reflexivity..|].
  exists e. split; [exact Hw|]. exact (proj1 (He eq_refl)).
Defined.

(** [qux("a", 1, "b")]: [z] is declared [int] and bound to a [str], yet
    the error of the wrapper names [x], the first parameter that fails,
    and says nothing of [z]. *)
Lemma rejects_parameter_names_first :
  ∃ w pre post,
    optional_typecheck Testsuite.qux Testsuite.st0 = Ok w
    ∧ getcallargs (f_code Testsuite.qux) [VStr "a"; VInt 1; VStr "b"] []
      = Ok (pre ++ ("z", VStr "b") :: post)
    ∧ deref Testsuite.st0 (w_annotations w) !! "z" = Some (AClass int_cls)
    ∧ issubclass (type_of (VStr "b")) int_cls = false
    ∧ wrapper w [VStr "a"; VInt 1; VStr "b"] [] Testsuite.st0
      = (Raise (TypeError
           "Expected argument 'x' of type <class 'int'> but got <class 'str'>."),
         Testsuite.st0)
    ∧ wrapper w [VStr "a"; VInt 1; VStr "b"] [] Testsuite.st0
      ≠ (Raise (arg_mismatch "z" (AClass int_cls) (VStr "b")), Testsuite.st0).
Proof.
  exists (Closure Testsuite.qux 3), [("x", VStr "a"); ("y", VInt 1)], [].
  repeat split; try reflexivity. intros H. vm_compute in H. discriminate H.
Qed.

Lemma rejects_return_tick :
  wrapper (Closure Testsuite.tick 4) [VInt 1] [] Testsuite.st0
  = (Raise (return_mismatch (AClass int_cls) (VStr "done")),
     State (heap Testsuite.st0) (fn_annotations Testsuite.st0) ["tick"]).
Proof.
  apply (wrapper_rejects_return Testsuite.tick Testsuite.st0
           (Closure Testsuite.tick 4) [VInt 1] [] Testsuite.st0
           (VStr "done")
           (State (heap Testsuite.st0) (fn_annotations Testsuite.st0) ["tick"])
           int_cls); reflexivity.
Defined.


Lemma unannotated_qux :
  wrapper (Closure Testsuite.qux 3)
    [VInt 1;
     VDict [("a", VInt 2); ("b", VList [VInt 1; VInt 2; VInt 3]);
            ("c", VStr "qwer")];
     VInt 3] [] Testsuite.st0
  = (Return (VStr "1{'a': 2, 'b': [1, 2, 3], 'c': 'qwer'}3"), Testsuite.st0).
Proof.
  apply (unannotated_never_checked Testsuite.qux Testsuite.st0
           (Closure Testsuite.qux 3)); reflexivity.
Defined.

Lemma propagates_boom :
  wrapper (Closure Testsuite.boom 5) [VInt 1] [] Testsuite.st0
  = (Raise (Exn "ValueError" "boom"),
     State (heap Testsuite.st0) (fn_annotations Testsuite.st0) ["boom"]).
Proof.
  apply (wrapper_propagates_error Testsuite.boom Testsuite.st0
           (Closure Testsuite.boom 5)); reflexivity.
Defined.

(** [foo.__annotations__["x"] = str] after wrapping: the wrapper, which
    accepted [foo(1)] before, now rejects it. *)
Lemma annotations_mutation_observed :
  ∃ w, optional_typecheck Testsuite.foo Testsuite.st0 = Ok w
       ∧ wrapper w [VInt 1] [] Testsuite.st0
         = (Return (VStr "1"), Testsuite.st0)
       ∧ wrapper w [VInt 1] []
           (annotations_setitem Testsuite.foo "x" (AClass str_cls) Testsuite.st0)
         = (Raise (arg_mismatch "x" (AClass str_cls) (VInt 1)),
            annotations_setitem Testsuite.foo "x" (AClass str_cls) Testsuite.st0)
       ∧ check_call w [VInt 1] []
           (annotations_setitem Testsuite.foo "x" (AClass str_cls) Testsuite.st0)
         ≠ check_call w [VInt 1] [] Testsuite.st0.
Proof.
  exists (Closure Testsuite.foo 1). repeat split; try reflexivity.
  intros H. vm_compute in H. discriminate H.
Qed.

Lemma rebinding_unobserved_foo :
  check_call (Closure Testsuite.foo 1) [VStr "a"] []
    (annotations_rebind Testsuite.foo 7 Testsuite.st0)
  = check_call (Closure Testsuite.foo 1) [VStr "a"] [] Testsuite.st0
  ∧ wrapper (Closure Testsuite.foo 1) [VInt 1] []
      (annotations_rebind Testsuite.foo 7 Testsuite.st0)
    = (Return (VStr "1"), annotations_rebind Testsuite.foo 7 Testsuite.st0).
Proof.
  split.
  - apply (annotations_rebinding_unobserved Testsuite.foo Testsuite.st0
             (Closure Testsuite.foo 1) 7 [VStr "a"] [] Testsuite.st0).
    reflexivity.
  - apply (proj2 (proj2 (proj2 (proj2
             (annotations_rebinding_unobserved Testsuite.foo Testsuite.st0
                (Closure Testsuite.foo 1) 7 [VInt 1] [] Testsuite.st0
                eq_refl))))).
    reflexivity.
Defined.

Lemma errors_are_TypeError_foo :
  (∃ e, wrapper (Closure Testsuite.foo 1) [] [] Testsuite.st0
        = (Raise e, Testsuite.st0) ∧ exn_class e = "TypeError")
  ∧ (∃ e, wrapper (Closure Testsuite.foo 1) [VStr "a"] [] Testsuite.st0
          = (Raise e, Testsuite.st0) ∧ exn_class e = "TypeError")
  ∧ (∃ e, wrapper (Closure Testsuite.bar 2) [VInt 1] [] Testsuite.st0
          = (Raise e, Testsuite.st0) ∧ exn_class e = "TypeError").
Proof.
  split; [|split].
  - eexists.
    apply (proj1 (wrapper_errors_are_TypeError Testsuite.foo Testsuite.st0
             (Closure Testsuite.foo 1) [] [] Testsuite.st0 eq_refl)).
    reflexivity.
  - eexists.
    apply (proj1 (proj2 (wrapper_errors_are_TypeError Testsuite.foo
             Testsuite.st0 (Closure Testsuite.foo 1) [VStr "a"] []
             Testsuite.st0 eq_refl)) [("x", VStr "a")]); reflexivity.
  - eexists.
    apply (proj1 (proj2 (proj2 (wrapper_errors_are_TypeError Testsuite.bar
             Testsuite.st0 (Closure Testsuite.bar 2) [VInt 1] []
             Testsuite.st0 eq_refl))) (VStr "badreturn") Testsuite.st0);
      reflexivity.
Defined.


(** * Further properties of the wrapper *)

Lemma check_parameters_Ok_inv annotations callargs :
  check_parameters annotations callargs = Ok () →
  forallb (λ p, instance_of_declared annotations p.1 p.2) callargs = true.
Proof.
  induction callargs as [|[name val] callargs IH]; [done|].
  cbn [check_parameters forallb]. unfold instance_of_declared at 1. simpl.
  destruct (annotations !! name) as [a|]; [|done].
  destruct (isinstance val a) as [[]|]; simpl; done.
Qed.

Section WrapperMore.
Context {World : Type}.
Implicit Types (st : state World) (w : closure World) (F : pyfunction World).

(** X1: a value that comes out of the wrapper was returned by the
    decorated function on the same arguments, with the store that call
    left, and every check held: the call bound, each bound value is an
    instance of what is declared for its parameter, and the value is an
    instance of the declared return type. *)
Theorem wrapper_return_sound w args kwargs st v st' :
  wrapper w args kwargs st = (Return v, st') →
  call_function (w_function w) args kwargs st = (Return v, st')
  ∧ (∃ callargs,
       getcallargs (f_code (w_function w)) args kwargs = Ok callargs
       ∧ forallb (λ p, instance_of_declared (deref st (w_annotations w))
                         p.1 p.2) callargs = true)
  ∧ instance_of_declared (deref st' (w_annotations w)) "return" v = true.
Proof.
  unfold wrapper.
  destruct (check_call w args kwargs st) as [[]|e] eqn:Hc; [|done].
  destruct (call_function _ args kwargs st) as [[res|e] st1]; [|done].
  destruct (check_return _ res) as [[]|e] eqn:Hr; [|done].
  intros [= -> ->]. split; [done|]. split.
  - unfold check_call in Hc.
    destruct (getcallargs _ args kwargs) as [callargs|]; [|done].
    exists callargs. split; [done|]. by apply check_parameters_Ok_inv.
  - unfold check_return in Hr. unfold instance_of_declared.
    destruct (deref st' (w_annotations w) !! "return") as [a|]; [|done].
    by destruct (isinstance v a) as [[]|].
Qed.

(** X2: an annotation that [isinstance] refuses as its second argument
    (the string of a quoted annotation, the object [None], a parameterized
    generic) does not stop the decoration and makes the calls fail: the
    decorator returns the wrapper without looking into the dictionary, and
    once the parameters bound before the annotated one pass, the wrapper
    raises the [TypeError] of [isinstance] itself, not a mismatch of its
    own, whatever value is bound and whatever the body is, with the store
    untouched. *)
Theorem refused_annotation_fails_at_call F l args kwargs st pre name val post
    text complaint :
  fn_annotations st !! f_id F = Some l →
  getcallargs (f_code F) args kwargs = Ok (pre ++ (name, val) :: post) →
  deref st l !! name = Some (AOther text complaint) →
  check_parameters (deref st l) pre = Ok () →
  optional_typecheck F st = Ok (Closure F l)
  ∧ ∀ body,
      wrapper (Closure (PyFunction (f_id F) (f_code F) body) l) args kwargs st
      = (Raise (TypeError complaint), st).
Proof.
  intros Hl Hb Ha Hpre. split.
  - unfold optional_typecheck. by rewrite Hl.
  - intros body. apply wrapper_check_failed. unfold check_call. simpl.
    rewrite Hb. simpl. rewrite check_parameters_app, Hpre. simpl.
    by rewrite Ha.
Qed.

(** X3: a return annotation that [isinstance] refuses, as in [-> None],
    where the annotation is the object [None], lets the decorated function
    run and then turns every value it returns into the [TypeError] of
    [isinstance], with the effects of the function kept. *)
Theorem refused_return_annotation F l args kwargs st res st' text complaint :
  fn_annotations st !! f_id F = Some l →
  check_call (Closure F l) args kwargs st = Ok () →
  call_function F args kwargs st = (Return res, st') →
  deref st' l !! "return" = Some (AOther text complaint) →
  optional_typecheck F st = Ok (Closure F l)
  ∧ wrapper (Closure F l) args kwargs st = (Raise (TypeError complaint), st').
Proof.
  intros Hl Hc Hcall Ha. split.
  - unfold optional_typecheck. by rewrite Hl.
  - unfold wrapper. rewrite Hc. simpl. rewrite Hcall. unfold check_return.
    simpl. by rewrite Ha.
Qed.

End WrapperMore.

(** * Further properties of the binding step *)

(** ** Keys of a dictionary *)

Lemma dict_get_None_keys {V} (k : string) (d : dict V) :
  dict_get k d = None ↔ k ∉ d.*1.
Proof.
  induction d as [|[k' v'] d IH]; simpl.
  - split; [intros _; apply not_elem_of_nil|done].
  - rewrite not_elem_of_cons.
    destruct (decide (k' = k)) as [->|Hne]; [split; [done|by intros []]|].
    rewrite IH. split; [by intros ?; split|by intros []].
Qed.

Lemma dict_get_Some_keys {V} (k : string) (d : dict V) :
  is_Some (dict_get k d) ↔ k ∈ d.*1.
Proof.
  destruct (decide (k ∈ d.*1)) as [Hin|Hin].
  - split; [done|]. intros _.
    destruct (dict_get k d) eqn:Hd; [done|].
    by apply dict_get_None_keys in Hd.
  - apply dict_get_None_keys in Hin as Hd. rewrite Hd.
    split; [by intros []%is_Some_None|done].
Qed.

Lemma dict_set_keys_present {V} (k : string) (v : V) (d : dict V) :
  k ∈ d.*1 → (dict_set k v d).*1 = d.*1.
Proof.
  induction d as [|[k' v'] d IH]; [by intros ?%elem_of_nil|].
  cbn [dict_set]. rewrite fmap_cons.
  destruct (decide (k' = k)) as [->|Hne]; [done|].
  intros [?|Hin]%elem_of_cons; [simpl in *; congruence|].
  rewrite fmap_cons. f_equal. by apply IH.
Qed.

Lemma dict_set_absent {V} (k : string) (v : V) (d : dict V) :
  k ∉ d.*1 → dict_set k v d = d ++ [(k, v)].
Proof.
  induction d as [|[k' v'] d IH]; simpl; [done|].
  intros [Hne Hin]%not_elem_of_cons.
  rewrite decide_False by done. by rewrite IH.
Qed.

Lemma dict_set_NoDup {V} (k : string) (v : V) (d : dict V) :
  NoDup d.*1 → NoDup (dict_set k v d).*1.
Proof.
  intros Hnd. destruct (decide (k ∈ d.*1)) as [Hin|Hin].
  - by rewrite dict_set_keys_present.
  - rewrite dict_set_absent, fmap_app by done. simpl.
    apply NoDup_app. split; [done|]. split; [|apply NoDup_singleton].
    intros x Hx ->%list_elem_of_singleton. done.
Qed.

Lemma dict_set_elem_of_keys {V} (k k' : string) (v : V) (d : dict V) :
  k' ∈ (dict_set k v d).*1 ↔ k' = k ∨ k' ∈ d.*1.
Proof.
  rewrite <- !dict_get_Some_keys.
  destruct (decide (k = k')) as [->|Hne].
  - rewrite dict_get_set_eq. split; [by left|done].
  - rewrite dict_get_set_ne by done. split; [by right|].
    intros [?|?]; [congruence|done].
Qed.

Lemma dict_set_app_r {V} (k : string) (v : V) (pre rest : dict V) :
  k ∉ pre.*1 → dict_set k v (pre ++ rest) = pre ++ dict_set k v rest.
Proof.
  induction pre as [|[k' v'] pre IH]; simpl; [done|].
  intros [Hne Hin]%not_elem_of_cons.
  rewrite decide_False by done. by rewrite IH.
Qed.

(** ** What each step of [getcallargs] keeps *)

Lemma param_names_possible c k :
  k ∈ co_args c ++ co_kwonlyargs c → k ∈ param_names c.
Proof. intros Hk. unfold param_names. rewrite app_assoc. apply elem_of_app. by left. Qed.

Lemma param_names_varargs c k : co_varargs c = Some k → k ∈ param_names c.
Proof.
  intros Hk. unfold param_names. rewrite Hk.
  apply elem_of_app. right. apply elem_of_app. right.
  apply elem_of_app. left. constructor.
Qed.

Lemma param_names_varkw c k : co_varkw c = Some k → k ∈ param_names c.
Proof.
  intros Hk. unfold param_names. rewrite Hk.
  apply elem_of_app. right. apply elem_of_app. right.
  apply elem_of_app. right. constructor.
Qed.

Lemma bind_positional_app args positional (d : dict value) :
  NoDup args → (∀ k, k ∈ args → k ∉ d.*1) →
  bind_positional args positional d = d ++ zip args positional.
Proof.
  unfold bind_positional. revert positional d.
  induction args as [|a args IH]; intros [|p positional] d Hnd Hd; simpl;
    try by rewrite app_nil_r.
  apply NoDup_cons in Hnd as [Ha Hnd].
  rewrite dict_set_absent by (apply Hd; constructor).
  rewrite IH; [by rewrite <- app_assoc|done|].
  intros k Hk. rewrite fmap_app. simpl. intros [Hin|Hin]%elem_of_app.
  - apply (Hd k); [by constructor|done].
  - apply list_elem_of_singleton in Hin. congruence.
Qed.

Lemma bind_positional_zip args positional :
  NoDup args → bind_positional args positional [] = zip args positional.
Proof.
  intros Hnd. rewrite bind_positional_app; [done..|].
  intros k _. apply not_elem_of_nil.
Qed.

Lemma zip_keys_args (args : list string) (positional : list value) k :
  k ∈ (zip args positional).*1 → k ∈ args.
Proof.
  revert positional. induction args as [|a args IH]; intros [|p positional];
    simpl; try by intros ?%elem_of_nil.
  intros [->|Hin]%elem_of_cons; [constructor|].
  apply elem_of_cons. right. by eapply IH.
Qed.

(** A property of the mapping that holds after the positional arguments
    and that every later insertion keeps holds for the result of
    [getcallargs].  A later insertion either adds a parameter that is not
    bound yet or updates the entry of [**kwargs]. *)
Lemma getcallargs_preserves c (P : dict value → Prop) positional named
    callargs :
  wf_funcspec c = true →
  (∀ k v d, P d → k ∈ param_names c → dict_get k d = None →
            P (dict_set k v d)) →
  (∀ k v d, P d → co_varkw c = Some k → P (dict_set k v d)) →
  P (zip (co_args c) positional) →
  getcallargs c positional named = Ok callargs →
  P callargs.
Proof.
  intros Hwf Hnew Hkw Hinit.
  pose proof (wf_funcspec_unpack _ Hwf) as (Hnd & Hva & Hvk & _).
  pose proof Hnd as (Hnda & _ & _)%NoDup_app.
  unfold getcallargs.
  assert (H0 : P (initial_bindings c positional)).
  { unfold initial_bindings. rewrite (bind_positional_zip _ _ Hnda).
    assert (P match co_varargs c with
              | Some varargs =>
                  dict_set varargs
                    (VTuple (drop (length positional `min` length (co_args c))
                               positional))
                    (zip (co_args c) positional)
              | None => zip (co_args c) positional
              end) as H1.
    { destruct (co_varargs c) as [va|] eqn:Ha; [|done].
      apply Hnew; [done|by apply param_names_varargs|].
      apply dict_get_None_keys. intros Hin%zip_keys_args.
      apply (Hva va eq_refl). apply elem_of_app. by left. }
    destruct (co_varkw c) as [vk|] eqn:Hk; [|done]. by apply Hkw. }
  assert (H1 : ∀ d d', P d →
            bind_named c (co_args c ++ co_kwonlyargs c) named d = Ok d' → P d').
  { clear H0 Hinit. induction named as [|[kw val] named IH]; intros d d' Hd; simpl.
    - by intros [= <-].
    - case_bool_decide as Hin.
      + destruct (dict_has kw d) eqn:Hh; [done|]. apply IH.
        apply Hnew; [done|by apply param_names_possible|].
        by apply dict_has_false.
      + destruct (co_varkw c) as [vk|] eqn:Hk; [|done]. apply IH.
        unfold kwdict_setitem. destruct (dict_get vk d) as [[]|]; try done.
        by apply Hkw. }
  destruct (bind_named _ _ _ _) as [d1|] eqn:Hn; [|done]. simpl.
  apply (H1 _ _ H0) in Hn. clear H0 H1.
  assert (H2 : ∀ args defaults d, (∀ k, k ∈ args → k ∈ co_args c) →
            P d → P (fill_defaults args defaults d)).
  { unfold fill_defaults. induction args as [|a args IH];
      intros [|v defaults] d Hsub Hd; simpl; try done.
    apply IH; [intros k Hk; apply Hsub; by constructor|].
    destruct (dict_has a d) eqn:Hh; [done|].
    apply Hnew; [done| |by apply dict_has_false].
    apply param_names_possible, elem_of_app. left. apply Hsub. constructor. }
  destruct (bind_defaults _ _ _) as [d2|] eqn:Hb; [|done]. simpl.
  assert (P d2) as Hd2.
  { unfold bind_defaults in Hb. destruct (_ && _); [done|].
    destruct (_ <? _); [|by injection Hb as <-].
    destruct (forallb _ _); [|done]. injection Hb as <-.
    apply H2; [|done]. intros k Hk. by eapply elem_of_drop_1. }
  clear Hn Hb H2.
  assert (H3 : ∀ ks d missing, (∀ k, k ∈ ks → k ∈ co_kwonlyargs c) → P d →
            P (foldl (kwonly_step (co_kwonlydefaults c)) (d, missing) ks).1).
  { induction ks as [|a ks IH]; intros d missing Hsub Hd; [done|].
    cbn [foldl]. unfold kwonly_step at 2.
    assert (∀ k, k ∈ ks → k ∈ co_kwonlyargs c) as Hsub'.
    { intros k Hk. apply Hsub. by constructor. }
    destruct (dict_has a d) eqn:Hh; [by apply IH|].
    destruct (dict_get a _); [|by apply IH].
    apply IH; [done|]. apply Hnew; [done| |by apply dict_has_false].
    apply param_names_possible, elem_of_app. right. apply Hsub. constructor. }
  unfold bind_kwonly.
  specialize (H3 (co_kwonlyargs c) d2 0 (λ _ H, H) Hd2).
  destruct (foldl _ _ _) as [d3 missing]. destruct (negb _); [done|].
  by intros [= <-].
Qed.

(** ** The values bound to [*args] and [**kwargs] *)

Lemma wf_varargs_varkw c va vk :
  wf_funcspec c = true → co_varargs c = Some va → co_varkw c = Some vk →
  va ≠ vk.
Proof.
  unfold wf_funcspec, param_names.
  intros [[Hnd%bool_decide_eq_true _]%andb_prop _]%andb_prop Ha Hk.
  rewrite Ha, Hk in Hnd. simpl in Hnd.
  apply NoDup_app in Hnd as (_ & _ & Hnd).
  apply NoDup_app in Hnd as (_ & _ & Hnd).
  apply NoDup_cons in Hnd as [Hne _]. intros ->. apply Hne. constructor.
Qed.

Lemma bind_named_get_present c possible named (d d' : dict value) k v :
  bind_named c possible named d = Ok d' →
  dict_get k d = Some v → co_varkw c ≠ Some k →
  dict_get k d' = Some v.
Proof.
  revert d. induction named as [|[kw val] named IH]; intros d; simpl.
  - by intros [= <-].
  - intros Hn Hd Hk. case_bool_decide.
    + destruct (dict_has kw d) eqn:Hh; [done|]. apply (IH _ Hn); [|done].
      rewrite dict_get_set_ne; [done|]. intros ->.
      apply dict_has_false in Hh. congruence.
    + destruct (co_varkw c) as [vk|] eqn:Hvk; [|done].
      apply (IH _ Hn); [|done].
      rewrite kwdict_setitem_get_ne; [done|]. congruence.
Qed.

Lemma bind_named_varkw c possible named (d d' : dict value) vk kd :
  co_varkw c = Some vk → vk ∉ possible →
  dict_get vk d = Some (VDict kd) →
  bind_named c possible named d = Ok d' →
  dict_get vk d'
  = Some (VDict (foldl (λ kd p, dict_set p.1 p.2 kd) kd
                   (filter (λ p, p.1 ∉ possible) named))).
Proof.
  intros Hvk Hnot. revert d kd.
  induction named as [|[kw val] named IH]; intros d kd Hd; simpl.
  - by intros [= <-].
  - rewrite filter_cons. simpl. case_bool_decide as Hin.
    + rewrite decide_False by (by intros ?).
      destruct (dict_has kw d) eqn:Hh; [done|]. apply IH.
      rewrite dict_get_set_ne; [done|]. by intros ->.
    + rewrite decide_True by done. rewrite Hvk. cbn [foldl]. apply IH.
      unfold kwdict_setitem. rewrite Hd. apply dict_get_set_eq.
Qed.

Lemma foldl_dict_set_NoDup (l kd : dict value) :
  NoDup (kd.*1 ++ l.*1) →
  foldl (λ kd p, dict_set p.1 p.2 kd) kd l = kd ++ l.
Proof.
  revert kd. induction l as [|[k v] l IH]; intros kd Hnd; simpl.
  - by rewrite app_nil_r.
  - assert (k ∉ kd.*1) as Hk.
    { apply NoDup_app in Hnd as (_ & Hdisj & _). intros Hin.
      apply (Hdisj k Hin). constructor. }
    rewrite dict_set_absent by done. rewrite IH.
    + by rewrite <- app_assoc.
    + rewrite fmap_app. simpl. by rewrite <- app_assoc.
Qed.

Lemma getcallargs_tail_get c n d1 callargs k v :
  (try! arg2value := bind_defaults c n d1 in bind_kwonly c arg2value)
  = Ok callargs →
  dict_get k d1 = Some v → dict_get k callargs = Some v.
Proof.
  intros Hb Hd.
  destruct (bind_defaults c n d1) as [d2|] eqn:Hb2; [|done]. simpl in Hb.
  assert (dict_get k d2 = Some v) as Hd2.
  { unfold bind_defaults in Hb2. destruct (_ && _); [done|].
    destruct (_ <? _); [|by injection Hb2 as <-].
    destruct (forallb _ _); [|done]. injection Hb2 as <-.
    by apply fill_defaults_get_present. }
  unfold bind_kwonly in Hb.
  pose proof (kwonly_fold_get_present (co_kwonlydefaults c)
                (co_kwonlyargs c) d2 0 k v Hd2) as Hk.
  destruct (foldl _ _ _) as [d3 missing]. destruct (negb _); [done|].
  by injection Hb as <-.
Qed.

Lemma initial_bindings_varargs c positional va :
  wf_funcspec c = true → co_varargs c = Some va →
  dict_get va (initial_bindings c positional)
  = Some (VTuple (drop (length (co_args c)) positional)).
Proof.
  intros Hwf Ha. unfold initial_bindings. rewrite Ha.
  assert (drop (length positional `min` length (co_args c)) positional
          = drop (length (co_args c)) positional) as ->.
  { destruct (decide (length positional ≤ length (co_args c))).
    - rewrite Nat.min_l by done. by rewrite !drop_ge by lia.
    - f_equal. lia. }
  destruct (co_varkw c) as [vk|] eqn:Hk.
  - rewrite dict_get_set_ne; [apply dict_get_set_eq|].
    intros Heq. by apply (wf_varargs_varkw c va vk Hwf Ha Hk).
  - apply dict_get_set_eq.
Qed.

Lemma getcallargs_varargs c positional named callargs va :
  wf_funcspec c = true → co_varargs c = Some va →
  getcallargs c positional named = Ok callargs →
  dict_get va callargs = Some (VTuple (drop (length (co_args c)) positional)).
Proof.
  intros Hwf Ha. unfold getcallargs.
  destruct (bind_named _ _ _ _) as [d1|] eqn:Hn; [|done]. simpl.
  intros Hb. apply (getcallargs_tail_get _ _ _ _ _ _ Hb).
  apply (bind_named_get_present _ _ _ _ _ _ _ Hn).
  - by apply initial_bindings_varargs.
  - intros Hk. by apply (wf_varargs_varkw c va va Hwf Ha Hk).
Qed.

Lemma getcallargs_varkw_fold c positional named callargs vk :
  wf_funcspec c = true → co_varkw c = Some vk →
  getcallargs c positional named = Ok callargs →
  dict_get vk callargs
  = Some (VDict (foldl (λ kd p, dict_set p.1 p.2 kd) []
                   (filter (λ p, p.1 ∉ co_args c ++ co_kwonlyargs c) named))).
Proof.
  intros Hwf Hk. unfold getcallargs.
  pose proof (wf_funcspec_unpack _ Hwf) as (_ & _ & Hvk & _).
  destruct (bind_named _ _ _ _) as [d1|] eqn:Hn; [|done]. simpl.
  intros Hb. apply (getcallargs_tail_get _ _ _ _ _ _ Hb).
  apply (bind_named_varkw c _ named (initial_bindings c positional) d1 vk []
           Hk (Hvk vk Hk)); [|done].
  unfold initial_bindings. rewrite Hk. apply dict_get_set_eq.
Qed.

(** X4: when a call binds, the name of [*args] is bound to the tuple of
    the positional arguments beyond the declared ones, and the name of
    [**kwargs] to the dictionary of the keywords that name no declared
    parameter, in the order of the call. *)
Theorem star_parameters_bound c positional named callargs :
  wf_funcspec c = true → NoDup named.*1 →
  getcallargs c positional named = Ok callargs →
  (∀ va, co_varargs c = Some va →
         dict_get va callargs
         = Some (VTuple (drop (length (co_args c)) positional)))
  ∧ (∀ vk, co_varkw c = Some vk →
           dict_get vk callargs
           = Some (VDict (filter (λ p, p.1 ∉ co_args c ++ co_kwonlyargs c)
                            named))).
Proof.
  intros Hwf Hnd Hb. split.
  - intros va Ha. by eapply getcallargs_varargs.
  - intros vk Hk. rewrite (getcallargs_varkw_fold _ _ _ _ _ Hwf Hk Hb).
    rewrite foldl_dict_set_NoDup; [done|]. simpl.
    apply (sublist_NoDup _ (named.*1)); [done|].
    apply fmap_sublist, sublist_filter.
Qed.

Section StarAnnotations.
Context {World : Type}.
Implicit Types (st : state World) (w : closure World) (F : pyfunction World).

(** X5: an annotation on [*args] or [**kwargs] is checked against the
    tuple or the dictionary itself, not against the arguments collected in
    it: when [tuple] (or [dict]) is not a subclass of the declared class,
    every call of the wrapper raises a [TypeError] before the body runs. *)
Theorem star_annotation_checks_container F st0 w args kwargs st name T :
  optional_typecheck F st0 = Ok w →
  wf_funcspec (f_code F) = true →
  (co_varargs (f_code F) = Some name ∧ issubclass tuple_cls T = false)
  ∨ (co_varkw (f_code F) = Some name ∧ issubclass dict_cls T = false) →
  deref st (w_annotations w) !! name = Some (AClass T) →
  ∃ e, exn_class e = "TypeError"
       ∧ ∀ body,
           wrapper (Closure (PyFunction (f_id F) (f_code F) body)
                      (w_annotations w)) args kwargs st
           = (Raise e, st).
Proof.
  intros [Hf _]%optional_typecheck_closure Hwf Hstar Ha.
  destruct (getcallargs (f_code F) args kwargs) as [callargs|e] eqn:Hb.
  - assert (∃ val, dict_get name callargs = Some val
                   ∧ issubclass (type_of val) T = false) as (val & Hget & Hs).
    { destruct Hstar as [[Hva Hs]|[Hvk Hs]].
      - eexists. split; [by eapply getcallargs_varargs|done].
      - eexists. split; [by eapply getcallargs_varkw_fold|done]. }
    apply dict_get_split in Hget as (pre & post & ->).
    destruct (check_parameters_mismatch _ pre name val T post Ha Hs)
      as (e & He & Hc & _).
    exists e. split; [done|]. intros body.
    apply wrapper_check_failed. unfold check_call. simpl. by rewrite Hb.
  - exists e. split; [by eapply getcallargs_TypeError|]. intros body.
    apply wrapper_check_failed. unfold check_call. simpl. by rewrite Hb.
Qed.

End StarAnnotations.

(** ** Every declared parameter is bound, once *)

Lemma zip_keys_take (args : list string) (positional : list value) :
  (zip args positional).*1 = take (length positional) args.
Proof.
  revert positional. induction args as [|a args IH]; intros [|p positional];
    simpl; try done.
  f_equal. apply IH.
Qed.

Lemma kwonly_fold_missing_le kd ks (d : dict value) missing :
  missing ≤ (foldl (kwonly_step kd) (d, missing) ks).2.
Proof.
  revert d missing. induction ks as [|a ks IH]; intros d missing; [done|].
  cbn [foldl]. unfold kwonly_step at 2.
  destruct (dict_has a d); [apply IH|].
  destruct (dict_get a kd); [apply IH|].
  etrans; [|apply IH]. lia.
Qed.

Lemma kwonly_fold_complete kd ks (d : dict value) missing k :
  (foldl (kwonly_step kd) (d, missing) ks).2 = 0 → k ∈ ks →
  is_Some (dict_get k (foldl (kwonly_step kd) (d, missing) ks).1).
Proof.
  revert d missing. induction ks as [|a ks IH]; intros d missing Hz Hin.
  { by apply elem_of_nil in Hin. }
  cbn [foldl] in *. unfold kwonly_step at 2. unfold kwonly_step at 2 in Hz.
  destruct (decide (a = k)) as [->|Hne].
  - destruct (dict_has k d) eqn:Hh.
    + apply dict_has_true in Hh as [v Hv].
      by rewrite (kwonly_fold_get_present _ _ _ _ _ _ Hv).
    + destruct (dict_get k kd) as [v|].
      * by rewrite (kwonly_fold_get_present _ _ _ _ _ v
                      (dict_get_set_eq k v d)).
      * pose proof (kwonly_fold_missing_le kd ks d (S missing)). lia.
  - apply elem_of_cons in Hin as [?|Hin]; [congruence|].
    destruct (dict_has a d); [by apply IH|].
    destruct (dict_get a kd); by apply IH.
Qed.

Lemma bind_kwonly_get_present c (d callargs : dict value) k v :
  bind_kwonly c d = Ok callargs → dict_get k d = Some v →
  dict_get k callargs = Some v.
Proof.
  unfold bind_kwonly. intros Hb Hd.
  pose proof (kwonly_fold_get_present (co_kwonlydefaults c)
                (co_kwonlyargs c) d 0 k v Hd) as Hk.
  destruct (foldl _ _ _) as [d3 missing]. destruct (negb _); [done|].
  by injection Hb as <-.
Qed.

Lemma bind_kwonly_complete c (d callargs : dict value) k :
  bind_kwonly c d = Ok callargs → k ∈ co_kwonlyargs c →
  is_Some (dict_get k callargs).
Proof.
  unfold bind_kwonly. intros Hb Hin.
  pose proof (kwonly_fold_complete (co_kwonlydefaults c)
                (co_kwonlyargs c) d 0 k) as Hk.
  destruct (foldl _ _ _) as [d3 missing]. simpl in Hk.
  destruct (missing =? 0) eqn:Hm; [|done]. apply Nat.eqb_eq in Hm.
  injection Hb as <-. by apply Hk.
Qed.

Lemma getcallargs_binds_args c positional named callargs i k :
  wf_funcspec c = true →
  getcallargs c positional named = Ok callargs →
  co_args c !! i = Some k → is_Some (dict_get k callargs).
Proof.
  intros Hwf Hb Hi.
  pose proof (wf_funcspec_unpack _ Hwf) as (Hnd & _ & Hvk & Hlen).
  pose proof Hnd as (Hnda & _ & _)%NoDup_app.
  assert (Hkin : k ∈ co_args c ++ co_kwonlyargs c).
  { apply elem_of_app. left. by eapply list_elem_of_lookup_2. }
  unfold getcallargs in Hb.
  destruct (bind_named _ _ _ _) as [d1|] eqn:Hn; [|done]. simpl in Hb.
  destruct (decide (i < length positional)) as [Hip|Hip].
  - destruct (initial_bindings_positional c positional i k Hwf Hip Hi)
      as [v Hv].
    exists v. apply (getcallargs_tail_get _ _ _ _ _ _ Hb).
    apply (bind_named_get_present _ _ _ _ _ _ _ Hn Hv).
    intros Hk. by apply (Hvk k Hk).
  - destruct (bind_defaults _ _ _) as [d2|] eqn:Hb2; [|done]. simpl in Hb.
    assert (is_Some (dict_get k d2)) as [v Hv];
      [|exists v; by eapply bind_kwonly_get_present].
    unfold bind_defaults in Hb2. destruct (_ && _); [done|].
    pose proof (lookup_lt_Some _ _ _ Hi) as Hia.
    destruct (length positional <? length (co_args c)) eqn:Hlt.
    2:{ apply Nat.ltb_ge in Hlt. lia. }
    destruct (forallb _ _) eqn:Hall; [|done]. injection Hb2 as <-.
    apply forallb_dict_has in Hall. rewrite Forall_lookup in Hall.
    set (m := length (co_args c) - length (co_defaults c)) in *.
    destruct (dict_get k d1) as [v|] eqn:Hd1.
    { exists v. by apply fill_defaults_get_present. }
    destruct (decide (i < m)) as [Him|Him].
    { destruct (Hall i k) as [v Hv]; [|congruence].
      by rewrite lookup_take_lt. }
    destruct (lookup_lt_is_Some_2 (co_defaults c) (i - m)) as [dflt Hdflt].
    { unfold m. lia. }
    exists dflt. apply (fill_defaults_get _ _ _ (i - m)); [|done| |done].
    + rewrite lookup_drop. rewrite <- Hi. f_equal. lia.
    + intros (j & Hj & Hji)%elem_of_take. rewrite lookup_drop in Hj.
      pose proof (NoDup_lookup _ _ _ _ Hnda Hj Hi). lia.
Qed.

Lemma getcallargs_keys_declared c positional named callargs :
  wf_funcspec c = true →
  getcallargs c positional named = Ok callargs →
  NoDup callargs.*1 ∧ ∀ k, k ∈ callargs.*1 → k ∈ param_names c.
Proof.
  intros Hwf Hb.
  pose proof (wf_funcspec_unpack _ Hwf) as (Hnd & _ & _ & _).
  pose proof Hnd as (Hnda & _ & _)%NoDup_app.
  apply (getcallargs_preserves c
           (λ d, NoDup d.*1 ∧ ∀ k, k ∈ d.*1 → k ∈ param_names c)
           positional named callargs Hwf); [| | |done].
  - intros k v d [Hd1 Hd2] Hk _. split; [by apply dict_set_NoDup|].
    intros k' [->|Hin]%dict_set_elem_of_keys; auto.
  - intros k v d [Hd1 Hd2] Hk. split; [by apply dict_set_NoDup|].
    intros k' [->|Hin]%dict_set_elem_of_keys; auto.
    by apply param_names_varkw.
  - rewrite zip_keys_take.
    split; [apply (sublist_NoDup _ (co_args c)); [done|apply sublist_take]|].
    intros k [i [Hi _]]%elem_of_take.
    apply param_names_possible, elem_of_app. left.
    by eapply list_elem_of_lookup_2.
Qed.

(** X6: when a call binds, the mapping the wrapper iterates over has
    exactly the declared parameters as keys (the positional and
    keyword-only ones, [*args] and [**kwargs]), each of them once. *)
Theorem getcallargs_binds_each_parameter_once c positional named callargs :
  wf_funcspec c = true →
  getcallargs c positional named = Ok callargs →
  NoDup callargs.*1 ∧ ∀ k, k ∈ callargs.*1 ↔ k ∈ param_names c.
Proof.
  intros Hwf Hb.
  destruct (getcallargs_keys_declared _ _ _ _ Hwf Hb) as [Hnodup Hsub].
  split; [done|]. intros k. split; [apply Hsub|].
  unfold param_names. rewrite <- dict_get_Some_keys.
  intros [Hin|[Hin|[Hin|Hin]%elem_of_app]%elem_of_app]%elem_of_app.
  - apply list_elem_of_lookup in Hin as [i Hi].
    by eapply getcallargs_binds_args.
  - unfold getcallargs in Hb.
    destruct (bind_named _ _ _ _) as [d1|]; [|done]. simpl in Hb.
    destruct (bind_defaults _ _ _) as [d2|]; [|done]. simpl in Hb.
    by eapply bind_kwonly_complete.
  - destruct (co_varargs c) as [va|] eqn:Ha; [|by apply elem_of_nil in Hin].
    apply list_elem_of_singleton in Hin as ->.
    by rewrite (getcallargs_varargs _ _ _ _ _ Hwf Ha Hb).
  - destruct (co_varkw c) as [vk|] eqn:Hk; [|by apply elem_of_nil in Hin].
    apply list_elem_of_singleton in Hin as ->.
    by rewrite (getcallargs_varkw_fold _ _ _ _ _ Hwf Hk Hb).
Qed.

(** ** The positional arguments come first *)

Lemma getcallargs_positional_prefix c positional named callargs :
  wf_funcspec c = true →
  getcallargs c positional named = Ok callargs →
  zip (co_args c) positional `prefix_of` callargs.
Proof.
  intros Hwf.
  pose proof (wf_funcspec_unpack _ Hwf) as (_ & _ & Hvk & _).
  apply (getcallargs_preserves c
           (λ d, zip (co_args c) positional `prefix_of` d)); [done| | |done].
  - intros k v d Hd _ Hk. rewrite dict_set_absent
      by by apply dict_get_None_keys.
    by apply prefix_app_r.
  - intros k v d [rest ->] Hk. exists (dict_set k v rest).
    apply dict_set_app_r. intros Hin%zip_keys_args.
    apply (Hvk k Hk). apply elem_of_app. by left.
Qed.

Lemma zip_lookup_split {A B} (l : list A) (k : list B) i a b :
  l !! i = Some a → k !! i = Some b →
  zip l k = zip (take i l) (take i k) ++ (a, b) :: zip (drop (S i) l) (drop (S i) k).
Proof.
  revert l k. induction i as [|i IH]; intros [|x l] [|y k] Hl Hk; try done.
  - by injection Hl as ->; injection Hk as ->.
  - simpl. f_equal. by apply IH.
Qed.

Section Leftmost.
Context {World : Type}.
Implicit Types (st : state World) (w : closure World) (F : pyfunction World).

(** X7: the positional arguments are checked first, from left to right:
    when a call binds, the positional argument in place [i] is not an
    instance of the class declared for its parameter and the positional
    arguments before it are instances of what is declared for theirs, the
    wrapper raises the mismatch naming the parameter in place [i],
    whatever the keywords, the defaults and the other parameters are. *)
Theorem leftmost_positional_reported F st0 w args kwargs st callargs i name
    val T :
  optional_typecheck F st0 = Ok w →
  wf_funcspec (f_code F) = true →
  getcallargs (f_code F) args kwargs = Ok callargs →
  co_args (f_code F) !! i = Some name →
  args !! i = Some val →
  deref st (w_annotations w) !! name = Some (AClass T) →
  issubclass (type_of val) T = false →
  forallb (λ p, instance_of_declared (deref st (w_annotations w)) p.1 p.2)
          (zip (take i (co_args (f_code F))) (take i args)) = true →
  wrapper w args kwargs st
  = (Raise (arg_mismatch name (AClass T) val), st).
Proof.
  intros [Hf _]%optional_typecheck_closure Hwf Hb Hi Hv Ha Hs Hpre.
  destruct (getcallargs_positional_prefix _ _ _ _ Hwf Hb) as [rest ->].
  apply wrapper_check_failed. unfold check_call. rewrite Hf, Hb. simpl.
  rewrite (zip_lookup_split _ _ i name val Hi Hv), <- app_assoc.
  rewrite check_parameters_app, (check_parameters_Ok _ _ Hpre). simpl.
  rewrite Ha. simpl. by rewrite Hs.
Qed.

End Leftmost.

(** ** The wrapper checks the values the body receives *)

Lemma handle_keywords_kwdict c named slots kd slots' kd' :
  co_posonlyargcount c = 0 →
  handle_keywords c named slots kd = Ok (slots', kd') →
  kd' = foldl (λ kd p, dict_set p.1 p.2 kd) kd
          (filter (λ p, p.1 ∉ co_args c ++ co_kwonlyargs c) named).
Proof.
  intros Hpos. revert slots kd.
  induction named as [|[kw val] named IH]; intros slots kd; simpl.
  - by intros [= _ <-].
  - rewrite filter_cons. simpl. unfold find_param. rewrite Hpos, drop_0.
    destruct (find_name kw _) as [j|] eqn:Hf; simpl.
    + apply find_name_Some, list_elem_of_lookup_2 in Hf.
      rewrite decide_False by (by intros ?).
      destruct (slot_filled _); [done|]. apply IH.
    + apply find_name_None in Hf. rewrite decide_True by done.
      destruct (co_varkw c); [apply IH|done].
Qed.

Lemma zip_take_drop {A B} (l : list A) (k : list B) i :
  zip l k = zip (take i l) (take i k) ++ zip (drop i l) (drop i k).
Proof.
  revert l k. induction i as [|i IH]; intros l k; [done|].
  destruct l as [|x l]; [done|]. destruct k as [|y k].
  - simpl. by destruct (drop i l).
  - simpl. f_equal. apply IH.
Qed.

Lemma fill_defaults_noop args defaults (d : dict value) :
  (∀ k, k ∈ args → is_Some (dict_get k d)) →
  fill_defaults args defaults d = d.
Proof.
  unfold fill_defaults. revert defaults.
  induction args as [|a args IH]; intros [|v defaults] Hd; simpl; try done.
  rewrite (proj2 (dict_has_true a d)) by (apply Hd; constructor).
  apply IH. intros k Hk. apply Hd. by constructor.
Qed.

(** The defaults, one parameter after the other in both binders. *)
Lemma defaults_lockstep c m (defs : list value) args' :
  NoDup (co_args c ++ co_kwonlyargs c) →
  ∀ j0 defs' (d : dict value),
    (∀ t k, args' !! t = Some k →
            (co_args c ++ co_kwonlyargs c) !! (m + j0 + t) = Some k) →
    (∀ t, defs' !! t = defs !! (j0 + t)) →
    length args' = length defs' →
    foldl (λ l i, if slot_filled (mjoin (l !! (m + i))) then l
                  else <[m + i := defs !! i]> l)
          (slots_of c d) (seq j0 (length defs'))
    = slots_of c (fill_defaults args' defs' d).
Proof.
  intros Hnd. unfold fill_defaults.
  induction args' as [|a args' IH]; intros j0 [|v defs'] d Hargs Hdefs Hlen;
    try done.
  cbn [length seq foldl zip zip_with].
  pose proof (Hargs 0 a eq_refl) as Ha. rewrite Nat.add_0_r in Ha.
  pose proof (Hdefs 0) as Hv. rewrite Nat.add_0_r in Hv. simpl in Hv.
  rewrite (slots_of_lookup _ _ _ _ Ha). cbn [mjoin option_join fst snd].
  rewrite dict_has_slot_filled.
  assert (Hargs' : ∀ t k, args' !! t = Some k →
            (co_args c ++ co_kwonlyargs c) !! (m + S j0 + t) = Some k).
  { intros t k Ht. rewrite <- (Hargs (S t) k Ht). f_equal. lia. }
  assert (Hdefs' : ∀ t, defs' !! t = defs !! (S j0 + t)).
  { intros t. pose proof (Hdefs (S t)) as Ht. simpl in Ht. rewrite Ht.
    f_equal. lia. }
  destruct (dict_get a d) eqn:Hd; cbn [slot_filled].
  - apply IH; [done..|]. simpl in Hlen. lia.
  - rewrite <- Hv, <- (slots_of_set c d a v (m + j0) Hnd Ha).
    apply IH; [done..|]. simpl in Hlen. lia.
Qed.

Lemma defaults_slots c argcount (d d2 : dict value) slots2 :
  wf_funcspec c = true →
  (∀ i k, i < argcount → co_args c !! i = Some k → is_Some (dict_get k d)) →
  bind_defaults c argcount d = Ok d2 →
  slots_defaults c argcount (slots_of c d) = Ok slots2 →
  slots2 = slots_of c d2.
Proof.
  intros Hwf HJ.
  pose proof (wf_funcspec_unpack _ Hwf) as (Hnd & _ & _ & Hdef).
  unfold bind_defaults, slots_defaults.
  destruct (_ && _); [done|].
  destruct (argcount <? length (co_args c)) eqn:Hlt.
  2:{ by intros [= <-] [= <-]. }
  apply Nat.ltb_lt in Hlt.
  destruct (forallb _ _); [|done]. destruct (negb _); [done|].
  intros [= <-] [= <-].
  rewrite Nat.min_l by lia.
  set (m := length (co_args c) - length (co_defaults c)).
  set (i0 := argcount - m).
  unfold copy_defaults, fill_defaults.
  rewrite (zip_take_drop (drop m (co_args c)) (co_defaults c) i0), foldl_app.
  fold (fill_defaults (take i0 (drop m (co_args c)))
          (take i0 (co_defaults c)) d).
  rewrite fill_defaults_noop.
  2:{ intros k (j & Hj & Hji)%elem_of_take. rewrite lookup_drop in Hj.
      apply (HJ (m + j)); [unfold i0 in Hji; lia|done]. }
  fold (fill_defaults (drop i0 (drop m (co_args c)))
          (drop i0 (co_defaults c)) d).
  replace (length (co_defaults c) - i0)
    with (length (drop i0 (co_defaults c))) by by rewrite length_drop.
  apply defaults_lockstep; [done| | |].
  - intros t k Ht. rewrite !lookup_drop in Ht.
    apply lookup_app_l_Some. rewrite <- Ht. f_equal. lia.
  - intros t. apply lookup_drop.
  - rewrite !length_drop. unfold m. lia.
Qed.

(** The keyword-only parameters, one after the other in both binders. *)
Lemma kwonly_lockstep c ks :
  NoDup (co_args c ++ co_kwonlyargs c) →
  ∀ off (d : dict value) missing,
    (∀ t k, ks !! t = Some k → co_kwonlyargs c !! (off + t) = Some k) →
    foldl (kwdefault_step c) (slots_of c d, missing)
          (seq (length (co_args c) + off) (length ks))
    = (slots_of c (foldl (kwonly_step (co_kwonlydefaults c)) (d, missing) ks).1,
       (foldl (kwonly_step (co_kwonlydefaults c)) (d, missing) ks).2).
Proof.
  intros Hnd.
  induction ks as [|k ks IH]; intros off d missing Hks; [done|].
  pose proof (Hks 0 k eq_refl) as Hk0. rewrite Nat.add_0_r in Hk0.
  assert (Hname : (co_args c ++ co_kwonlyargs c)
                    !! (length (co_args c) + off) = Some k).
  { rewrite lookup_app_r by lia. rewrite <- Hk0. f_equal. lia. }
  assert (Hks' : ∀ t k', ks !! t = Some k' →
            co_kwonlyargs c !! (S off + t) = Some k').
  { intros t k' Ht. rewrite <- (Hks (S t) k' Ht). f_equal. lia. }
  cbn [length seq foldl]. unfold kwonly_step at 2 4, kwdefault_step at 2.
  rewrite (slots_of_lookup _ _ _ _ Hname). cbn [mjoin option_join].
  replace (length (co_args c) + off - length (co_args c)) with off by lia.
  rewrite Hk0. cbn [mbind option_bind].
  rewrite dict_has_slot_filled.
  replace (S (length (co_args c) + off))
    with (length (co_args c) + S off) by lia.
  destruct (dict_get k d) as [v|] eqn:Hd; cbn [slot_filled].
  - by apply IH.
  - destruct (dict_get k (co_kwonlydefaults c)) as [v|].
    + rewrite <- (slots_of_set c d k v _ Hnd Hname). by apply IH.
    + by apply IH.
Qed.

Lemma kwonly_slots c (d d3 : dict value) slots3 :
  wf_funcspec c = true →
  bind_kwonly c d = Ok d3 →
  slots_kwdefaults c (slots_of c d) = Ok slots3 →
  slots3 = slots_of c d3.
Proof.
  intros (Hnd & _)%wf_funcspec_unpack.
  unfold bind_kwonly, slots_kwdefaults.
  pose proof (kwonly_lockstep c (co_kwonlyargs c) Hnd 0 d 0) as Hl.
  rewrite Nat.add_0_r in Hl. rewrite Hl by done.
  destruct (foldl (kwonly_step _) _ _) as [d' missing]. simpl.
  destruct (negb _); [done|]. by intros [= <-] [= <-].
Qed.

(** The locals of the frame, read by name. *)
Lemma locals_cons_Some a (v : value) rest :
  omap (λ p : string * option value, (p.1,.) <$> p.2) ((a, Some v) :: rest)
  = (a, v) :: omap (λ p, (p.1,.) <$> p.2) rest.
Proof. done. Qed.

Lemma locals_cons_None a rest :
  omap (λ p : string * option value, (p.1,.) <$> p.2) ((a, None) :: rest)
  = omap (λ p, (p.1,.) <$> p.2) rest.
Proof. done. Qed.

Lemma locals_get (l : list string) (d tail : dict value) name :
  dict_get name
    (omap (λ p, (p.1,.) <$> p.2) (zip l ((λ k, dict_get k d) <$> l)) ++ tail)
  = if decide (name ∈ l)
    then match dict_get name d with
         | Some v => Some v
         | None => dict_get name tail
         end
    else dict_get name tail.
Proof.
  induction l as [|a l IH].
  { destruct (decide (name ∈ [])) as [Hin|_];
      [by apply elem_of_nil in Hin|done]. }
  rewrite fmap_cons.
  change (zip (a :: l) (dict_get a d :: ((λ k, dict_get k d) <$> l)))
    with ((a, dict_get a d) :: zip l ((λ k, dict_get k d) <$> l)).
  destruct (dict_get a d) as [va|] eqn:Ha.
  - rewrite locals_cons_Some, <- app_comm_cons. cbn [dict_get].
    destruct (decide (a = name)) as [->|Hne].
    + rewrite decide_True by constructor. by rewrite Ha.
    + rewrite IH. destruct (decide (name ∈ l)) as [Hin|Hin].
      * rewrite decide_True; [done|by constructor].
      * rewrite decide_False; [done|]. by apply not_elem_of_cons.
  - rewrite locals_cons_None, IH.
    destruct (decide (a = name)) as [->|Hne].
    + rewrite (decide_True (P := name ∈ name :: l)) by constructor.
      rewrite Ha. by destruct (decide (name ∈ l)).
    + destruct (decide (name ∈ l)) as [Hin|Hin].
      * rewrite decide_True; [done|by constructor].
      * rewrite decide_False; [done|]. by apply not_elem_of_cons.
Qed.

Lemma drop_min_length {A} (l : list A) n :
  drop (length l `min` n) l = drop n l.
Proof.
  destruct (decide (length l ≤ n)).
  - rewrite Nat.min_l by done. by rewrite !drop_ge by lia.
  - f_equal. lia.
Qed.

(** For a function without positional-only parameters, a call that binds
    in the wrapper and in the interpreter binds every name to the same
    value in both. *)
Lemma binders_bind_same_values c positional named callargs locals :
  wf_funcspec c = true → co_posonlyargcount c = 0 →
  getcallargs c positional named = Ok callargs →
  bind_call c positional named = Ok locals →
  ∀ name, dict_get name callargs = dict_get name locals.
Proof.
  intros Hwf Hpos Hg Hb name.
  pose proof (wf_funcspec_unpack _ Hwf) as (Hnd & Hva & Hvk & _).
  pose proof (getcallargs_keys_declared _ _ _ _ Hwf Hg) as [_ Hsub].
  pose proof Hg as Hg0.
  unfold getcallargs in Hg. unfold bind_call in Hb.
  rewrite (initial_slots_of _ _ Hwf) in Hb.
  pose proof (keywords_simulation c named (initial_bindings c positional) []
                Hwf (names_posonly_zero c named Hpos)) as Hk.
  destruct (bind_named _ _ _ _) as [d1|] eqn:Hn; [|done].
  destruct (handle_keywords _ _ _ _) as [[slots1 kd]|] eqn:Hh; [|done].
  destruct Hk as [-> HJ]. simpl in Hg, Hb.
  apply (handle_keywords_kwdict _ _ _ _ _ _ Hpos) in Hh.
  destruct (bind_defaults _ _ _) as [d2|] eqn:Hd; [|done].
  destruct (slots_defaults _ _ _) as [slots2|] eqn:Hs; [|done].
  simpl in Hg, Hb.
  assert (slots2 = slots_of c d2) as ->.
  { apply (defaults_slots c (length positional) d1); [done| |done..].
    intros i k Hi Hki.
    destruct (initial_bindings_positional c positional i k Hwf Hi Hki)
      as [v Hv].
    exists v. apply HJ; [|done].
    apply elem_of_app. left. by eapply list_elem_of_lookup_2. }
  destruct (slots_kwdefaults _ _) as [slots3|] eqn:Hs3; [|done].
  simpl in Hb.
  pose proof (kwonly_slots c d2 callargs slots3 Hwf Hg Hs3) as ->.
  injection Hb as <-. unfold slots_of. rewrite locals_get.
  assert (Htail : name ∉ option_list (co_varargs c) →
                  name ∉ option_list (co_varkw c) →
                  dict_get name
                    (from_option (λ name0, [(name0,
                        VTuple (drop (length positional `min`
                                      length (co_args c)) positional))]) []
                       (co_varargs c)
                     ++ from_option (λ name0, [(name0, VDict kd)]) []
                          (co_varkw c)) = None).
  { intros H1 H2. destruct (co_varargs c) as [va|], (co_varkw c) as [vk|];
      simpl in *; rewrite ?decide_False; try done.
    - intros ->. apply H2. constructor.
    - intros ->. apply H1. constructor.
    - intros ->. apply H1. constructor.
    - intros ->. apply H2. constructor. }
  destruct (decide (name ∈ co_args c ++ co_kwonlyargs c)) as [Hin|Hin].
  - destruct (dict_get name callargs) eqn:Hc; [done|]. symmetry.
    apply Htail.
    + destruct (co_varargs c) as [va|] eqn:Ha; [|apply not_elem_of_nil].
      intros ->%list_elem_of_singleton. by apply (Hva _ eq_refl).
    + destruct (co_varkw c) as [vk|] eqn:Hkw; [|apply not_elem_of_nil].
      intros ->%list_elem_of_singleton. by apply (Hvk _ eq_refl).
  - destruct (co_varargs c) as [va|] eqn:Ha.
    + destruct (decide (va = name)) as [->|Hne].
      * rewrite (getcallargs_varargs _ _ _ _ _ Hwf Ha Hg0). simpl.
        rewrite decide_True by done. by rewrite drop_min_length.
      * destruct (co_varkw c) as [vk|] eqn:Hkw.
        -- destruct (decide (vk = name)) as [->|Hne2].
           ++ rewrite (getcallargs_varkw_fold _ _ _ _ _ Hwf Hkw Hg0). simpl.
              rewrite decide_False by done. rewrite decide_True by done.
              by rewrite Hh.
           ++ simpl. rewrite !decide_False by done.
              apply dict_get_None_keys. intros Hk%Hsub.
              unfold param_names in Hk. rewrite Ha, Hkw, app_assoc in Hk.
              apply elem_of_app in Hk as [?|Hk]; [done|].
              apply elem_of_app in Hk as [Hk|Hk];
                apply list_elem_of_singleton in Hk; congruence.
        -- simpl. rewrite decide_False by done.
           apply dict_get_None_keys. intros Hk%Hsub.
           unfold param_names in Hk. rewrite Ha, Hkw, app_assoc in Hk.
           apply elem_of_app in Hk as [?|Hk]; [done|].
           apply elem_of_app in Hk as [Hk|Hk];
             [apply list_elem_of_singleton in Hk; congruence
             |by apply elem_of_nil in Hk].
    + destruct (co_varkw c) as [vk|] eqn:Hkw.
      * destruct (decide (vk = name)) as [->|Hne2].
        -- rewrite (getcallargs_varkw_fold _ _ _ _ _ Hwf Hkw Hg0). simpl.
           rewrite decide_True by done. by rewrite Hh.
        -- simpl. rewrite decide_False by done.
           apply dict_get_None_keys. intros Hk%Hsub.
           unfold param_names in Hk. rewrite Ha, Hkw, app_assoc in Hk.
           apply elem_of_app in Hk as [?|Hk]; [done|].
           apply elem_of_app in Hk as [Hk|Hk];
             [by apply elem_of_nil in Hk
             |apply list_elem_of_singleton in Hk; congruence].
      * simpl. apply dict_get_None_keys. intros Hk%Hsub.
        unfold param_names in Hk. rewrite Ha, Hkw, app_assoc in Hk.
        apply elem_of_app in Hk as [?|Hk]; [done|].
        apply elem_of_app in Hk as [Hk|Hk]; by apply elem_of_nil in Hk.
Qed.

Lemma check_parameters_Ok_elem annotations callargs name val a :
  check_parameters annotations callargs = Ok () →
  (name, val) ∈ callargs → annotations !! name = Some a →
  isinstance val a = Ok true.
Proof.
  intros Hc%check_parameters_Ok_inv Hin Ha.
  rewrite forallb_forall in Hc.
  specialize (Hc (name, val) (proj1 (list_elem_of_In _ _) Hin)).
  unfold instance_of_declared in Hc. simpl in Hc. rewrite Ha in Hc.
  by destruct (isinstance val a) as [[]|].
Qed.

Lemma handle_keywords_TypeError c named slots kd e :
  handle_keywords c named slots kd = Err e → exn_class e = "TypeError".
Proof.
  revert slots kd.
  induction named as [|[kw val] named IH]; intros slots kd; simpl; [done|].
  destruct (find_param c kw) as [j|].
  - destruct (slot_filled _); [by intros [= <-]|apply IH].
  - destruct (co_varkw c); [apply IH|].
    case_bool_decide; by intros [= <-].
Qed.

Lemma bind_call_TypeError c positional named e :
  bind_call c positional named = Err e → exn_class e = "TypeError".
Proof.
  unfold bind_call.
  destruct (handle_keywords _ _ _ _) as [[slots kd]|e'] eqn:Hh; simpl.
  2:{ intros [= <-]. by eapply handle_keywords_TypeError. }
  unfold slots_defaults.
  destruct (_ && _); [by intros [= <-]|].
  assert (∀ slots', rbind (slots_kwdefaults c slots')
            (λ localsplus, Ok
               (omap (λ p, (p.1,.) <$> p.2)
                  (zip (co_args c ++ co_kwonlyargs c) localsplus)
                ++ from_option (λ name, [(name,
                     VTuple (drop (length positional `min`
                                   length (co_args c)) positional))]) []
                     (co_varargs c)
                ++ from_option (λ name, [(name, VDict kd)]) [] (co_varkw c)))
          = Err e → exn_class e = "TypeError") as Hkw.
  { intros slots'. unfold slots_kwdefaults.
    destruct (foldl _ _ _) as [l missing].
    destruct (negb _); simpl; [by intros [= <-]|done]. }
  destruct (_ <? _); [|apply Hkw].
  destruct (negb _); simpl; [by intros [= <-]|apply Hkw].
Qed.

Section Received.
Context {World : Type}.
Implicit Types (st : state World) (w : closure World) (F : pyfunction World).

(** X8: for a function without positional-only parameters, when the
    checks of the wrapper pass and the call binds, the body runs with
    locals that agree, name by name, with the values the wrapper checked:
    every local whose name carries an annotation holds an instance of the
    annotated class. *)
Theorem body_receives_checked_values F st0 w args kwargs st locals :
  optional_typecheck F st0 = Ok w →
  wf_funcspec (f_code F) = true →
  co_posonlyargcount (f_code F) = 0 →
  check_call w args kwargs st = Ok () →
  bind_call (f_code F) args kwargs = Ok locals →
  call_function F args kwargs st = f_body F locals st
  ∧ (∃ callargs,
       getcallargs (f_code F) args kwargs = Ok callargs
       ∧ ∀ name, dict_get name callargs = dict_get name locals)
  ∧ ∀ name val a,
      dict_get name locals = Some val →
      deref st (w_annotations w) !! name = Some a →
      isinstance val a = Ok true.
Proof.
  intros [Hf _]%optional_typecheck_closure Hwf Hpos Hc Hb.
  unfold check_call in Hc. rewrite Hf in Hc.
  destruct (getcallargs (f_code F) args kwargs) as [callargs|] eqn:Hg;
    [|done].
  simpl in Hc.
  pose proof (binders_bind_same_values _ _ _ _ _ Hwf Hpos Hg Hb) as Hsame.
  split; [unfold call_function; by rewrite Hb|].
  split; [by exists callargs|].
  intros name val a Hl Ha. rewrite <- Hsame in Hl.
  apply dict_get_split in Hl as (pre & post & ->).
  apply (check_parameters_Ok_elem _ _ name val a Hc); [|done].
  apply elem_of_app. right. constructor.
Qed.

(** X9: decorating a function that declares no types changes nothing
    but the text of the binding errors, for every call in which no keyword
    is the name of a positional-only parameter.  The binding step of the
    wrapper binds exactly when the direct call binds; a call that binds
    gives the outcome and the store of the direct call; a call that does
    not bind raises a [TypeError] without running the body, decorated or
    not. *)
Theorem undeclared_function_unchanged F st0 w args kwargs st :
  optional_typecheck F st0 = Ok w →
  wf_funcspec (f_code F) = true →
  names_posonly (f_code F) kwargs = false →
  deref st (w_annotations w) = ∅ →
  deref (call_function F args kwargs st).2 (w_annotations w) !! "return"
  = None →
  is_ok (getcallargs (f_code F) args kwargs)
  = is_ok (bind_call (f_code F) args kwargs)
  ∧ (is_ok (bind_call (f_code F) args kwargs) = true →
     wrapper w args kwargs st = call_function F args kwargs st)
  ∧ (is_ok (bind_call (f_code F) args kwargs) = false →
     ∃ e e',
       getcallargs (f_code F) args kwargs = Err e
       ∧ bind_call (f_code F) args kwargs = Err e'
       ∧ wrapper w args kwargs st = (Raise e, st)
       ∧ call_function F args kwargs st = (Raise e', st)
       ∧ exn_class e = "TypeError" ∧ exn_class e' = "TypeError").
Proof.
  intros [Hf _]%optional_typecheck_closure Hwf Hpos Hempty Hret.
  pose proof (getcallargs_bind_call_agree _ args kwargs Hwf Hpos) as Hagree.
  split; [done|]. unfold wrapper, check_call. rewrite Hf.
  destruct (getcallargs (f_code F) args kwargs) as [callargs|e] eqn:Hg;
    simpl in *.
  - split; [|by rewrite <- Hagree]. intros _.
    assert (check_parameters (deref st (w_annotations w)) callargs = Ok ())
      as ->.
    { apply check_parameters_Ok. apply forallb_forall. intros [name val] _.
      unfold instance_of_declared. simpl. by rewrite Hempty, lookup_empty. }
    destruct (call_function F args kwargs st) as [[res|e] st']; [|done].
    simpl in Hret. unfold check_return. by rewrite Hret.
  - split; [by rewrite <- Hagree|]. intros _. unfold call_function in *.
    destruct (bind_call (f_code F) args kwargs) as [locals|e'] eqn:Hb;
      [done|].
    exists e, e'. split; [done|]. split; [done|]. split; [done|].
    split; [done|].
    split; [by eapply getcallargs_TypeError|by eapply bind_call_TypeError].
Qed.

End Received.

(** * The self-test *)

Lemma wrapper_pure {World} (w : closure World) g args kwargs
    (st : state World) :
  (∀ locals st', f_body (w_function w) locals st' = (g locals, st')) →
  wrapper w args kwargs st
  = (pure_wrapper_outcome (f_code (w_function w)) g
       (deref st (w_annotations w)) args kwargs, st).
Proof.
  intros Hbody. unfold wrapper, check_call, call_function, pure_wrapper_outcome.
  destruct (getcallargs _ args kwargs) as [callargs|]; [|done]. simpl.
  destruct (check_parameters _ callargs) as [[]|]; [|done].
  destruct (bind_call _ args kwargs) as [locals|]; [|done].
  rewrite Hbody. destruct (g locals) as [res|]; [|done].
  by destruct (check_return _ res).
Qed.

Lemma wrapper_fresh {World} (f : pyfunction World) g annotations id l h fa wld
    args kwargs :
  (∀ locals st', f_body f locals st' = (g locals, st')) →
  wrapper (Closure (PyFunction id (f_code f) (f_body f)) l) args kwargs
    (State (<[l := annotations]> h) fa wld)
  = (pure_wrapper_outcome (f_code f) g annotations args kwargs,
     State (<[l := annotations]> h) fa wld).
Proof.
  intros Hbody. rewrite (wrapper_pure _ g) by done. simpl.
  unfold deref. simpl. by rewrite lookup_insert_eq.
Qed.

Lemma def_decorated_fresh {World} (f : pyfunction World) annotations rest
    (st : state World) :
  def_decorated f annotations rest st
  = rest (Closure (PyFunction (fresh (dom (fn_annotations st))) (f_code f)
                     (f_body f))
            (fresh (dom (heap st))))
         (State (<[fresh (dom (heap st)) := annotations]> (heap st))
            (<[fresh (dom (fn_annotations st)) := fresh (dom (heap st))]>
               (fn_annotations st))
            (world st)).
Proof.
  unfold def_decorated, def_function, optional_typecheck. simpl.
  by rewrite lookup_insert_eq.
Qed.

Lemma lookup_insert_fresh {V} (m : gmap nat V) v k :
  k ∈ dom m → <[fresh (dom m) := v]> m !! k = m !! k.
Proof.
  intros Hk. apply lookup_insert_ne. intros Heq.
  apply (is_fresh (dom m)). by rewrite Heq.
Qed.

Lemma dom_insert_fresh {V} (m : gmap nat V) v k k' :
  k ∈ dom m → k ∈ dom (<[k' := v]> m).
Proof. intros Hk. rewrite dom_insert. apply elem_of_union. by right. Qed.

(** X10: the self-test that runs when the module is loaded passes on
    every store: nothing is raised, nothing is printed, and the
    annotation dictionaries and functions that existed before are left as
    they were. *)
Theorem self_test_passes (st : state (list string)) :
  ∃ st', _testsuite st = (Return VNone, st')
         ∧ run_on_import st = (Return VNone, st')
         ∧ world st' = world st
         ∧ (∀ l, l ∈ dom (heap st) → heap st' !! l = heap st !! l)
         ∧ (∀ id, id ∈ dom (fn_annotations st) →
                  fn_annotations st' !! id = fn_annotations st !! id).
Proof.
  assert (∃ st', _testsuite st = (Return VNone, st')
            ∧ world st' = world st
            ∧ (∀ l, l ∈ dom (heap st) → heap st' !! l = heap st !! l)
            ∧ (∀ id, id ∈ dom (fn_annotations st) →
                     fn_annotations st' !! id = fn_annotations st !! id))
    as (st' & Ht & Hw & Hh & Hf).
  2:{ exists st'. unfold run_on_import. by rewrite Ht. }
  unfold _testsuite.
  rewrite def_decorated_fresh. unfold then_do at 1.
  rewrite (wrapper_fresh Testsuite.foo
             (λ locals, Return (VStr (format_value
                                        (Testsuite.local "x" locals)))))
    by done.
  change (pure_wrapper_outcome _ _ foo_annotations [VInt 1] [])
    with (Return (VStr "1")).
  unfold then_do at 1. unfold raise_if at 1.
  change (str_ne "1" (VStr "1")) with false. cbv iota.
  unfold then_do at 1. unfold expect_TypeError at 1.
  rewrite (wrapper_fresh Testsuite.foo
             (λ locals, Return (VStr (format_value
                                        (Testsuite.local "x" locals)))))
    by done.
  change (pure_wrapper_outcome _ _ foo_annotations [VStr "a"] [])
    with (Raise (arg_mismatch "x" (AClass int_cls) (VStr "a"))).
  cbv iota. rewrite bool_decide_eq_true_2 by done.
  rewrite def_decorated_fresh. simpl fn_annotations. simpl heap. simpl world.
  unfold then_do at 1. unfold expect_TypeError at 1.
  rewrite (wrapper_fresh Testsuite.bar (λ _, Return (VStr "badreturn")))
    by done.
  change (pure_wrapper_outcome _ _ bar_annotations [VInt 1] [])
    with (Raise (return_mismatch (AClass int_cls) (VStr "badreturn"))).
  cbv iota. rewrite bool_decide_eq_true_2 by done.
  unfold then_do at 1. unfold expect_TypeError at 1.
  rewrite (wrapper_fresh Testsuite.bar (λ _, Return (VStr "badreturn")))
    by done.
  change (pure_wrapper_outcome _ _ bar_annotations [VStr "a"] [])
    with (Raise (arg_mismatch "x" (AClass int_cls) (VStr "a"))).
  cbv iota. rewrite bool_decide_eq_true_2 by done.
  rewrite def_decorated_fresh. simpl fn_annotations. simpl heap. simpl world.
  unfold then_do at 1. unfold expect_TypeError at 1.
  rewrite (wrapper_fresh Testsuite.qux
             (λ locals,
                Return (VStr (format_value (Testsuite.local "x" locals)
                              +:+ format_value (Testsuite.local "y" locals)
                              +:+ format_value (Testsuite.local "z" locals)))))
    by done.
  change (pure_wrapper_outcome _ _ qux_annotations
            [VStr "a"; VInt 1; VInt 2] [])
    with (Raise (arg_mismatch "x" (AClass int_cls) (VStr "a"))).
  cbv iota. rewrite bool_decide_eq_true_2 by done.
  unfold then_do at 1.
  rewrite (wrapper_fresh Testsuite.qux
             (λ locals,
                Return (VStr (format_value (Testsuite.local "x" locals)
                              +:+ format_value (Testsuite.local "y" locals)
                              +:+ format_value (Testsuite.local "z" locals)))))
    by done.
  change (pure_wrapper_outcome _ _ qux_annotations
            [VInt 1; qux_y; VInt 3] [])
    with (Return (VStr "1{'a': 2, 'b': [1, 2, 3], 'c': 'qwer'}3")).
  unfold then_do at 1. unfold raise_if at 1.
  change (str_ne _ _) with false. cbv iota.
  eexists. split; [reflexivity|]. simpl. split; [done|]. split.
  - intros l Hl. rewrite !lookup_insert_fresh; auto using dom_insert_fresh.
  - intros id Hid. rewrite !lookup_insert_fresh; auto using dom_insert_fresh.
Qed.

(** * Decorating a decorated function *)

Lemma bind_named_wrapper_code name named a kd :
  bind_named (wrapper_code name) [] named [("args", a); ("kwargs", VDict kd)]
  = Ok [("args", a);
        ("kwargs", VDict (foldl (λ kd p, dict_set p.1 p.2 kd) kd named))].
Proof.
  revert kd. induction named as [|[kw val] named IH]; intros kd; [done|].
  cbn [bind_named]. rewrite bool_decide_eq_false_2 by apply not_elem_of_nil.
  cbn [co_varkw wrapper_code]. unfold kwdict_setitem. simpl. apply IH.
Qed.

Lemma getcallargs_wrapper_code name args kwargs :
  getcallargs (wrapper_code name) args kwargs
  = Ok [("args", VTuple args);
        ("kwargs", VDict (foldl (λ kd p, dict_set p.1 p.2 kd) [] kwargs))].
Proof.
  unfold getcallargs, initial_bindings. simpl.
  rewrite Nat.min_0_r, drop_0.
  unfold bind_positional. simpl.
  rewrite (bind_named_wrapper_code name kwargs (VTuple args) []). simpl.
  unfold bind_defaults. simpl. by rewrite andb_false_r.
Qed.

Lemma handle_keywords_wrapper_code name named kd :
  handle_keywords (wrapper_code name) named [] kd
  = Ok ([], foldl (λ kd p, dict_set p.1 p.2 kd) kd named).
Proof.
  revert kd. induction named as [|[kw val] named IH]; intros kd; [done|].
  cbn [handle_keywords]. unfold find_param. simpl. apply IH.
Qed.

Lemma bind_call_wrapper_code name args kwargs :
  bind_call (wrapper_code name) args kwargs
  = Ok [("args", VTuple args);
        ("kwargs", VDict (foldl (λ kd p, dict_set p.1 p.2 kd) [] kwargs))].
Proof.
  unfold bind_call, initial_slots. simpl.
  rewrite Nat.min_0_r, drop_0. simpl.
  rewrite (handle_keywords_wrapper_code name kwargs []). simpl.
  unfold slots_defaults. simpl. by rewrite andb_false_r.
Qed.

Lemma foldl_dict_set_id (kwargs : dict value) :
  NoDup kwargs.*1 →
  foldl (λ kd p, dict_set p.1 p.2 kd) [] kwargs = kwargs.
Proof. intros Hnd. by rewrite foldl_dict_set_NoDup. Qed.

Section Decorated.
Context {World : Type}.
Implicit Types (st : state World) (w : closure World) (F : pyfunction World).

Lemma call_wrapper_function w id args kwargs st :
  NoDup kwargs.*1 →
  call_function (wrapper_function w id) args kwargs st
  = wrapper w args kwargs st.
Proof.
  intros Hnd. unfold call_function. simpl.
  rewrite bind_call_wrapper_code, (foldl_dict_set_id _ Hnd). done.
Qed.

Lemma wrapper_Return_inv w args kwargs st res st' :
  wrapper w args kwargs st = (Return res, st') →
  check_return (deref st' (w_annotations w)) res = Ok ().
Proof.
  unfold wrapper.
  destruct (check_call w args kwargs st) as [[]|e]; [|done].
  destruct (call_function _ args kwargs st) as [[r|e] st1]; [|done].
  destruct (check_return _ r) as [[]|e] eqn:Hr; [|done].
  by intros [= <- <-].
Qed.

Lemma decorate_inv F st W st1 :
  decorate F st = Ok (W, st1) →
  ∃ l, fn_annotations st !! f_id F = Some l
       ∧ W = wrapper_function (Closure F l) (fresh (dom (fn_annotations st)))
       ∧ st1 = State (heap st)
                 (<[fresh (dom (fn_annotations st)) := l]> (fn_annotations st))
                 (world st).
Proof.
  unfold decorate, optional_typecheck.
  destruct (fn_annotations st !! f_id F) as [l|]; [|done]. simpl.
  intros [= <- <-]. by exists l.
Qed.

(** X11: the function object that the decorator returns shares the
    annotation dictionary of the decorated function, and called with the
    arguments of a call it runs the wrapper on just these arguments. *)
Theorem decorated_function_is_wrapper F st W st1 args kwargs st2 :
  decorate F st = Ok (W, st1) →
  NoDup kwargs.*1 →
  fn_annotations st1 !! f_id W = fn_annotations st !! f_id F
  ∧ heap st1 = heap st ∧ world st1 = world st
  ∧ co_name (f_code W) = co_name (f_code F)
  ∧ ∃ w, optional_typecheck F st = Ok w
         ∧ call_function W args kwargs st2 = wrapper w args kwargs st2.
Proof.
  intros (l & Hl & -> & ->)%decorate_inv Hnd. simpl.
  rewrite lookup_insert_eq. repeat split; [done|].
  exists (Closure F l). split.
  - unfold optional_typecheck. by rewrite Hl.
  - by apply call_wrapper_function.
Qed.

(** X12: decorating twice is decorating once, for a function whose
    annotations name no parameter [args] or [kwargs]: the doubly
    decorated function gives the outcome and the store of the decorated
    one on every call. *)
Theorem double_decoration F st W1 st1 W2 st2 l args kwargs st' :
  decorate F st = Ok (W1, st1) →
  decorate W1 st1 = Ok (W2, st2) →
  fn_annotations st !! f_id F = Some l →
  deref st' l !! "args" = None →
  deref st' l !! "kwargs" = None →
  NoDup kwargs.*1 →
  call_function W2 args kwargs st' = call_function W1 args kwargs st'.
Proof.
  intros (l1 & Hl1 & -> & ->)%decorate_inv H2 Hl Hargs Hkwargs Hnd.
  assert (l1 = l) as -> by congruence.
  apply decorate_inv in H2 as (l2 & Hl2 & -> & _).
  simpl in Hl2. rewrite lookup_insert_eq in Hl2. injection Hl2 as <-.
  rewrite !call_wrapper_function by done.
  set (W1 := wrapper_function (Closure F l) _).
  unfold wrapper at 1. unfold check_call. simpl.
  rewrite getcallargs_wrapper_code. simpl. rewrite Hargs, Hkwargs.
  unfold W1. rewrite call_wrapper_function by done.
  destruct (wrapper (Closure F l) args kwargs st') as [[res|e] st3] eqn:Hw;
    [|done].
  pose proof (wrapper_Return_inv _ _ _ _ _ _ Hw) as Hr. simpl in Hr.
  by rewrite Hr.
Qed.

(** X13: decorated twice, a function that annotates a parameter named
    [args] with a class that [tuple] does not derive from rejects every
    call: the outer wrapper checks the tuple of its own [*args] against
    that annotation, and nothing of the function runs. *)
Theorem double_decoration_args_clash F st W1 st1 W2 st2 l T args kwargs st' :
  decorate F st = Ok (W1, st1) →
  decorate W1 st1 = Ok (W2, st2) →
  fn_annotations st !! f_id F = Some l →
  deref st' l !! "args" = Some (AClass T) →
  issubclass tuple_cls T = false →
  NoDup kwargs.*1 →
  call_function W2 args kwargs st'
  = (Raise (arg_mismatch "args" (AClass T) (VTuple args)), st').
Proof.
  intros (l1 & Hl1 & -> & ->)%decorate_inv H2 Hl Hargs Hs Hnd.
  assert (l1 = l) as -> by congruence.
  apply decorate_inv in H2 as (l2 & Hl2 & -> & _).
  simpl in Hl2. rewrite lookup_insert_eq in Hl2. injection Hl2 as <-.
  rewrite call_wrapper_function by done.
  apply wrapper_check_failed. unfold check_call. simpl.
  rewrite getcallargs_wrapper_code. simpl. rewrite Hargs. simpl.
  by rewrite Hs.
Qed.

End Decorated.

(** * Arguments passed by keyword *)

Lemma bind_named_binds c possible named (d d' : dict value) name val :
  bind_named c possible named d = Ok d' →
  (name, val) ∈ named → name ∈ possible → co_varkw c ≠ Some name →
  dict_get name d' = Some val.
Proof.
  revert d. induction named as [|[kw v] named IH]; intros d Hn Hin Hp Hk.
  { by apply elem_of_nil in Hin. }
  cbn [bind_named] in Hn.
  apply elem_of_cons in Hin as [[= <- <-]|Hin].
  - rewrite bool_decide_eq_true_2 in Hn by done.
    destruct (dict_has name d); [done|].
    apply (bind_named_get_present _ _ _ _ _ _ _ Hn); [|done].
    apply dict_get_set_eq.
  - case_bool_decide.
    + destruct (dict_has kw d); [done|]. by apply (IH _ Hn).
    + destruct (co_varkw c); [|done]. by apply (IH _ Hn).
Qed.

Section Keywords.
Context {World : Type}.
Implicit Types (st : state World) (w : closure World) (F : pyfunction World).

(** X14: an argument passed by keyword to a declared parameter is bound
    to that parameter, and checked like a positional one: when it is not
    an instance of the class declared for the parameter, the wrapper
    raises a [TypeError] and the body does not run. *)
Theorem keyword_argument_checked F st0 w args kwargs st callargs name val T :
  optional_typecheck F st0 = Ok w →
  wf_funcspec (f_code F) = true →
  getcallargs (f_code F) args kwargs = Ok callargs →
  (name, val) ∈ kwargs →
  name ∈ co_args (f_code F) ++ co_kwonlyargs (f_code F) →
  deref st (w_annotations w) !! name = Some (AClass T) →
  issubclass (type_of val) T = false →
  dict_get name callargs = Some val
  ∧ ∃ e, exn_class e = "TypeError"
         ∧ ∀ body,
             wrapper (Closure (PyFunction (f_id F) (f_code F) body)
                        (w_annotations w)) args kwargs st
             = (Raise e, st).
Proof.
  intros [Hf _]%optional_typecheck_closure Hwf Hg Hin Hp Ha Hs.
  pose proof (wf_funcspec_unpack _ Hwf) as (_ & _ & Hvk & _).
  assert (dict_get name callargs = Some val) as Hget.
  { unfold getcallargs in Hg.
    destruct (bind_named _ _ _ _) as [d1|] eqn:Hn; [|done]. simpl in Hg.
    apply (getcallargs_tail_get _ _ _ _ _ _ Hg).
    apply (bind_named_binds _ _ _ _ _ _ _ Hn Hin Hp).
    intros Hk. by apply (Hvk name Hk). }
  split; [done|].
  apply dict_get_split in Hget as (pre & post & ->).
  destruct (check_parameters_mismatch _ pre name val T post Ha Hs)
    as (e & He & Hc & _).
  exists e. split; [done|]. intros body.
  apply wrapper_check_failed. unfold check_call. simpl. by rewrite Hg.
Qed.

End Keywords.

(** * When a call binds *)

Lemma bind_named_ok_iff c named (d : dict value) :
  (∀ k, co_varkw c = Some k → k ∉ co_args c ++ co_kwonlyargs c) →
  NoDup named.*1 →
  is_ok (bind_named c (co_args c ++ co_kwonlyargs c) named d) = true
  ↔ ∀ kw, kw ∈ named.*1 →
      (kw ∈ co_args c ++ co_kwonlyargs c ∧ dict_get kw d = None)
      ∨ ((kw ∉ co_args c ++ co_kwonlyargs c) ∧ is_Some (co_varkw c)).
Proof.
  intros Hvk. revert d.
  induction named as [|[kw val] named IH]; intros d Hnd.
  { split; [intros _ kw Hkw; by apply elem_of_nil in Hkw|done]. }
  rewrite fmap_cons in Hnd. apply NoDup_cons in Hnd as [Hkw Hnd].
  simpl in Hkw.
  assert (Hhere : kw ∈ kw :: named.*1) by constructor.
  assert (Hne : ∀ kw', kw' ∈ named.*1 → kw ≠ kw') by (by intros kw' ? ->).
  cbn [bind_named]. rewrite fmap_cons. simpl.
  case_bool_decide as Hin.
  - rewrite dict_has_slot_filled.
    destruct (dict_get kw d) as [v|] eqn:Hd; simpl.
    + split; [done|]. intros H.
      destruct (H kw Hhere) as [[_ ?]|[? _]]; [congruence|done].
    + rewrite (IH _ Hnd). split.
      * intros H kw' [->|Hkw']%elem_of_cons; [by left|].
        destruct (H kw' Hkw') as [[? Hg]|?]; [left|by right].
        split; [done|]. rewrite dict_get_set_ne in Hg; [done|by apply Hne].
      * intros H kw' Hkw'.
        destruct (H kw' (proj2 (elem_of_cons _ _ _) (or_intror Hkw')))
          as [[? Hg]|?]; [left|by right].
        split; [done|]. rewrite dict_get_set_ne; [done|by apply Hne].
  - destruct (co_varkw c) as [vk|] eqn:Hk.
    + assert (Hget : ∀ kw', kw' ∈ co_args c ++ co_kwonlyargs c →
                dict_get kw' (kwdict_setitem vk kw val d) = dict_get kw' d).
      { intros kw' Hkw'. apply kwdict_setitem_get_ne. intros Heq.
        apply (Hvk _ eq_refl). by rewrite Heq. }
      rewrite (IH _ Hnd). split.
      * intros H kw' [->|Hkw']%elem_of_cons; [by right|].
        destruct (H kw' Hkw') as [[? Hg]|?]; [left|by right].
        split; [done|]. by rewrite Hget in Hg.
      * intros H kw' Hkw'.
        destruct (H kw' (proj2 (elem_of_cons _ _ _) (or_intror Hkw')))
          as [[? Hg]|?]; [left|by right].
        split; [done|]. by rewrite Hget.
    + simpl. split; [done|]. intros H.
      destruct (H kw Hhere) as [[? _]|[_ []%is_Some_None]]. done.
Qed.

Lemma bind_named_has c named (d d' : dict value) k :
  (∀ k, co_varkw c = Some k → k ∉ co_args c ++ co_kwonlyargs c) →
  bind_named c (co_args c ++ co_kwonlyargs c) named d = Ok d' →
  k ∈ co_args c ++ co_kwonlyargs c →
  is_Some (dict_get k d') ↔ is_Some (dict_get k d) ∨ k ∈ named.*1.
Proof.
  intros Hvk. revert d.
  induction named as [|[kw val] named IH]; intros d Hn Hk.
  { injection Hn as <-. split; [by left|].
    intros [?|Hin]; [done|by apply elem_of_nil in Hin]. }
  cbn [bind_named] in Hn. rewrite fmap_cons. simpl.
  rewrite elem_of_cons.
  case_bool_decide as Hin.
  - destruct (dict_has kw d) eqn:Hh; [done|].
    rewrite (IH _ Hn Hk).
    destruct (decide (k = kw)) as [->|Hne].
    + rewrite dict_get_set_eq. split; [by right; left|by left].
    + rewrite dict_get_set_ne by done. split.
      * intros [?|?]; [by left|by right; right].
      * intros [?|[?|?]]; [by left|done|by right].
  - destruct (co_varkw c) as [vk|] eqn:Hkw; [|done].
    rewrite (IH _ Hn Hk).
    rewrite kwdict_setitem_get_ne
      by (intros ->; by apply (Hvk _ eq_refl)).
    split.
    + intros [?|?]; [by left|by right; right].
    + intros [?|[->|?]]; [by left|done|by right].
Qed.

Lemma initial_bindings_has c positional k :
  wf_funcspec c = true → k ∈ co_args c ++ co_kwonlyargs c →
  is_Some (dict_get k (initial_bindings c positional))
  ↔ k ∈ take (length positional) (co_args c).
Proof.
  intros Hwf Hk.
  pose proof (wf_funcspec_unpack _ Hwf) as (Hnd & _).
  apply NoDup_app in Hnd as (Hnda & _).
  rewrite initial_bindings_get by done.
  rewrite (bind_positional_zip _ _ Hnda), dict_get_Some_keys.
  by rewrite zip_keys_take.
Qed.

Lemma bind_defaults_ok_iff c n (d : dict value) :
  is_ok (bind_defaults c n d) = true
  ↔ (n ≤ length (co_args c) ∨ is_Some (co_varargs c))
    ∧ (n < length (co_args c) →
       Forall (λ arg, is_Some (dict_get arg d))
         (take (length (co_args c) - length (co_defaults c)) (co_args c))).
Proof.
  unfold bind_defaults.
  destruct (length (co_args c) <? n) eqn:Hmany.
  - apply Nat.ltb_lt in Hmany. case_bool_decide as Hva; cbn [negb andb].
    + destruct (n <? length (co_args c)) eqn:Hlt;
        [apply Nat.ltb_lt in Hlt; lia|].
      split; [|done]. intros _. split; [by right|lia].
    + split; [done|]. intros [[?|?] _]; [lia|done].
  - apply Nat.ltb_ge in Hmany. cbn [andb].
    destruct (n <? length (co_args c)) eqn:Hlt.
    + apply Nat.ltb_lt in Hlt.
      destruct (forallb _ _) eqn:Hall.
      * apply forallb_dict_has in Hall. split; [|done].
        intros _. split; [by left|done].
      * split; [done|]. intros [_ H]. apply forallb_dict_has in H; [|done].
        congruence.
    + apply Nat.ltb_ge in Hlt. split; [|done].
      intros _. split; [by left|lia].
Qed.

Lemma kwonly_fold_zero_iff kd ks (d : dict value) missing :
  (foldl (kwonly_step kd) (d, missing) ks).2 = 0
  ↔ missing = 0
    ∧ Forall (λ k, is_Some (dict_get k d) ∨ is_Some (dict_get k kd)) ks.
Proof.
  revert d missing. induction ks as [|a ks IH]; intros d missing.
  { simpl. split; [by intros ->|by intros []]. }
  cbn [foldl]. unfold kwonly_step at 2. rewrite Forall_cons.
  rewrite dict_has_slot_filled.
  destruct (dict_get a d) as [v|] eqn:Hd; simpl.
  - rewrite IH. split; [intros [? ?]|intros [? [_ ?]]]; eauto.
  - destruct (dict_get a kd) as [v|] eqn:Hkd.
    + rewrite IH. 
      assert (Forall (λ k, is_Some (dict_get k (dict_set a v d))
                           ∨ is_Some (dict_get k kd)) ks
              ↔ Forall (λ k, is_Some (dict_get k d)
                             ∨ is_Some (dict_get k kd)) ks) as ->.
      { apply Forall_iff. intros k.
        destruct (decide (a = k)) as [->|Hne].
        - rewrite dict_get_set_eq, Hkd. split; intros _; by right.
        - by rewrite dict_get_set_ne. }
      split; [intros [? ?]|intros [? [_ ?]]]; eauto.
    + split.
      * intros Hz. pose proof (kwonly_fold_missing_le kd ks d (S missing)).
        lia.
      * intros [_ [[[]%is_Some_None|[]%is_Some_None] _]].
Qed.

Lemma bind_kwonly_ok_iff c (d : dict value) :
  is_ok (bind_kwonly c d) = true
  ↔ Forall (λ k, is_Some (dict_get k d)
                 ∨ is_Some (dict_get k (co_kwonlydefaults c)))
      (co_kwonlyargs c).
Proof.
  unfold bind_kwonly.
  pose proof (kwonly_fold_zero_iff (co_kwonlydefaults c) (co_kwonlyargs c)
                d 0) as Hz.
  destruct (foldl _ _ _) as [d' missing]. simpl in Hz.
  destruct (missing =? 0) eqn:Hm; simpl.
  - apply Nat.eqb_eq in Hm. split; [|done]. intros _. by apply Hz.
  - apply Nat.eqb_neq in Hm. split; [done|]. intros H.
    destruct Hm. by apply Hz.
Qed.

Lemma bind_defaults_get_kwonly c n (d d2 : dict value) k :
  wf_funcspec c = true →
  bind_defaults c n d = Ok d2 → k ∈ co_kwonlyargs c →
  dict_get k d2 = dict_get k d.
Proof.
  intros (Hnd & _)%wf_funcspec_unpack Hb Hk.
  apply NoDup_app in Hnd as (_ & Hdisj & _).
  unfold bind_defaults in Hb. destruct (_ && _); [done|].
  destruct (_ <? _); [|by injection Hb as <-].
  destruct (forallb _ _); [|done]. injection Hb as <-.
  apply fill_defaults_get_other. intros Hin%elem_of_drop_1.
  by apply (Hdisj k).
Qed.

(** X15: a call binds exactly when it has no positional argument beyond
    the declared ones (unless there is [*args]), every keyword names a
    declared parameter that no positional argument fills (or there is
    [**kwargs] to take it), every positional parameter without default is
    given by position or by keyword, and every keyword-only parameter
    without default is given. *)
Theorem binding_succeeds_iff c positional named :
  wf_funcspec c = true →
  NoDup named.*1 →
  is_ok (getcallargs c positional named) = true
  ↔ (length positional ≤ length (co_args c) ∨ is_Some (co_varargs c))
    ∧ (∀ kw, kw ∈ named.*1 →
         (kw ∈ co_args c ++ co_kwonlyargs c
          ∧ kw ∉ take (length positional) (co_args c))
         ∨ ((kw ∉ co_args c ++ co_kwonlyargs c) ∧ is_Some (co_varkw c)))
    ∧ (∀ i name,
         co_args c !! i = Some name → length positional ≤ i →
         i < length (co_args c) - length (co_defaults c) →
         name ∈ named.*1)
    ∧ (∀ name, name ∈ co_kwonlyargs c →
         name ∈ named.*1
         ∨ is_Some (dict_get name (co_kwonlydefaults c))).
Proof.
  intros Hwf Hndk.
  pose proof (wf_funcspec_unpack _ Hwf) as (Hnd & _ & Hvk & Hlen).
  pose proof Hnd as (Hnda & Hdisj & _)%NoDup_app.
  assert (Hkeys : (∀ kw, kw ∈ named.*1 →
              (kw ∈ co_args c ++ co_kwonlyargs c
               ∧ dict_get kw (initial_bindings c positional) = None)
              ∨ ((kw ∉ co_args c ++ co_kwonlyargs c) ∧ is_Some (co_varkw c)))
            ↔ (∀ kw, kw ∈ named.*1 →
              (kw ∈ co_args c ++ co_kwonlyargs c
               ∧ kw ∉ take (length positional) (co_args c))
              ∨ ((kw ∉ co_args c ++ co_kwonlyargs c) ∧ is_Some (co_varkw c)))).
  { split; intros H kw Hkw; (destruct (H kw Hkw) as [[Hin Hg]|?];
      [left; split; [done|]|by right]).
    - rewrite <- (initial_bindings_has c positional kw Hwf Hin).
      rewrite Hg. by intros []%is_Some_None.
    - rewrite <- (initial_bindings_has c positional kw Hwf Hin) in Hg.
      by apply eq_None_not_Some. }
  pose proof (bind_named_ok_iff c named (initial_bindings c positional)
                Hvk Hndk) as Hn.
  rewrite Hkeys in Hn. clear Hkeys.
  unfold getcallargs.
  destruct (bind_named _ _ _ _) as [d1|] eqn:Hb1; simpl.
  2:{ split; [done|]. intros (_ & H & _). by apply Hn in H. }
  assert (Hhas : ∀ k, k ∈ co_args c ++ co_kwonlyargs c →
            is_Some (dict_get k d1)
            ↔ k ∈ take (length positional) (co_args c) ∨ k ∈ named.*1).
  { intros k Hk. rewrite (bind_named_has _ _ _ _ _ Hvk Hb1 Hk).
    by rewrite (initial_bindings_has _ _ _ Hwf Hk). }
  pose proof (bind_defaults_ok_iff c (length positional) d1) as Hd.
  destruct (bind_defaults _ _ _) as [d2|] eqn:Hb2; simpl.
  - rewrite bind_kwonly_ok_iff, Forall_forall.
    destruct (proj1 Hd eq_refl) as [Hmany Hreq].
    split.
    + intros Hkw. split; [done|]. split; [by apply Hn|]. split.
      * intros i name Hi Hpos Hm.
        assert (length positional < length (co_args c)) as Hlt.
        { apply lookup_lt_Some in Hi. lia. }
        specialize (Hreq Hlt). rewrite Forall_lookup in Hreq.
        assert (is_Some (dict_get name d1)) as Hs.
        { apply (Hreq i). by rewrite lookup_take_lt. }
        apply Hhas in Hs as [(j & Hj & Hjp)%elem_of_take|?]; [|done|].
        -- pose proof (NoDup_lookup _ _ _ _ Hnda Hi Hj). lia.
        -- apply elem_of_app. left. by eapply list_elem_of_lookup_2.
      * intros name Hk. destruct (Hkw name Hk) as [Hs|?]; [|by right].
        left. rewrite (bind_defaults_get_kwonly _ _ _ _ _ Hwf Hb2 Hk) in Hs.
        apply Hhas in Hs as [(j & Hj & _)%elem_of_take|?]; [|done|].
        -- exfalso. apply (Hdisj name); [|done].
           by eapply list_elem_of_lookup_2.
        -- apply elem_of_app. by right.
    + intros (_ & _ & _ & Hkw) name Hk.
      destruct (Hkw name Hk) as [Hin|?]; [left|by right].
      rewrite (bind_defaults_get_kwonly _ _ _ _ _ Hwf Hb2 Hk).
      apply Hhas; [apply elem_of_app; by right|by right].
  - split; [done|]. intros (Hmany & _ & Hreq & _).
    assert (is_ok (Err e : result (dict value)) = true); [|done].
    apply Hd. split; [done|]. intros Hlt.
    apply Forall_lookup. intros i name [Hi Him]%lookup_take_Some.
    apply Hhas; [apply elem_of_app; left; by eapply list_elem_of_lookup_2|].
    destruct (decide (i < length positional)) as [Hip|Hip].
    + left. apply elem_of_take. by exists i.
    + right. apply (Hreq i name Hi); [lia|done].
Qed.

(** * The binding step against the direct call *)

Section Agreement.
Context {World : Type}.
Implicit Types (st : state World) (w : closure World) (F : pyfunction World).

(** X16: for every call in which no keyword is the name of a
    positional-only parameter, the binding step of the wrapper fails
    exactly when the direct call fails to bind.  Such a failure comes out
    of the wrapper as a [TypeError] and leaves the store untouched,
    whatever the body of [F] is, and the direct call raises a [TypeError]
    too, without running the body. *)
Theorem binding_step_agrees F st0 w args kwargs st :
  optional_typecheck F st0 = Ok w →
  wf_funcspec (f_code F) = true →
  names_posonly (f_code F) kwargs = false →
  is_ok (getcallargs (f_code F) args kwargs)
  = is_ok (bind_call (f_code F) args kwargs)
  ∧ (∀ e, getcallargs (f_code F) args kwargs = Err e →
          wrapper w args kwargs st = (Raise e, st)
          ∧ (∀ body,
               wrapper (Closure (PyFunction (f_id F) (f_code F) body)
                          (w_annotations w)) args kwargs st
               = (Raise e, st))
          ∧ exn_class e = "TypeError"
          ∧ ∃ e', bind_call (f_code F) args kwargs = Err e'
                  ∧ call_function F args kwargs st = (Raise e', st)
                  ∧ exn_class e' = "TypeError").
Proof.
  intros [Hf _]%optional_typecheck_closure Hwf Hpos.
  pose proof (getcallargs_bind_call_agree _ args kwargs Hwf Hpos) as Hagree.
  split; [done|]. intros e He.
  assert (Hfail : check_call w args kwargs st = Err e).
  { unfold check_call. by rewrite Hf, He. }
  split; [|split; [|split]].
  - by apply wrapper_check_failed.
  - rewrite <- Hf. by apply wrapper_check_failed_any_body.
  - by eapply getcallargs_TypeError.
  - rewrite He in Hagree. unfold call_function.
    destruct (bind_call _ args kwargs) as [locals|e'] eqn:Hb; [done|].
    exists e'. split; [done|]. split; [done|].
    by eapply bind_call_TypeError.
Qed.

End Agreement.

(** * Tuples and unions of classes as annotations *)

Lemma isinstance_members val text cs :
  isinstance val (ATuple text (AClass <$> cs))
  = Ok (existsb (issubclass (type_of val)) cs).
Proof.
  induction cs as [|c cs IH]; [done|].
  rewrite fmap_cons, (proj1 (isinstance_items val text _)).
  cbn [isinstance existsb]. by destruct (issubclass (type_of val) c).
Qed.

Section Members.
Context {World : Type}.
Implicit Types (st : state World) (w : closure World) (F : pyfunction World).

(** X17: a parameter annotated with a tuple or a union of classes, as in
    [x: int | None], accepts exactly the values that are instances of one
    of the members.  Once the parameters bound before it pass, a value of
    one of the classes lets the loop go on with the parameters after it,
    and any other value makes the wrapper raise the mismatch that shows
    the whole annotation, with the store untouched, whatever the body
    is. *)
Theorem members_annotation_checked F st0 w args kwargs st pre name val post
    a text cs :
  optional_typecheck F st0 = Ok w →
  getcallargs (f_code F) args kwargs = Ok (pre ++ (name, val) :: post) →
  a = ATuple text (AClass <$> cs) ∨ a = AUnion text (AClass <$> cs) →
  deref st (w_annotations w) !! name = Some a →
  check_parameters (deref st (w_annotations w)) pre = Ok () →
  isinstance val a = Ok (existsb (issubclass (type_of val)) cs)
  ∧ (existsb (issubclass (type_of val)) cs = true →
     check_call w args kwargs st
     = check_parameters (deref st (w_annotations w)) post)
  ∧ (existsb (issubclass (type_of val)) cs = false →
     ∀ body,
       wrapper (Closure (PyFunction (f_id F) (f_code F) body)
                  (w_annotations w)) args kwargs st
       = (Raise (TypeError
            ("Expected argument '" +:+ name +:+ "' of type " +:+ text
             +:+ " but got "
             +:+ ("<class '" +:+ cls_name (type_of val) +:+ "'>") +:+ ".")),
          st)).
Proof.
  intros [Hf _]%optional_typecheck_closure Hb Hshape Ha Hpre.
  assert (Hi : isinstance val a = Ok (existsb (issubclass (type_of val)) cs)).
  { destruct Hshape as [-> | ->].
    - apply isinstance_members.
    - rewrite (proj2 (isinstance_items val text _)). apply isinstance_members. }
  assert (Htext : str_of_annot a = text) by by destruct Hshape as [-> | ->].
  split; [done|]. split.
  - intros Hin. unfold check_call. rewrite Hf, Hb. simpl.
    rewrite check_parameters_app, Hpre. simpl. by rewrite Ha, Hi, Hin.
  - intros Hout body. apply wrapper_check_failed. unfold check_call. simpl.
    rewrite Hb. simpl. rewrite check_parameters_app, Hpre. simpl.
    rewrite Ha, Hi, Hout. simpl. unfold arg_mismatch. by rewrite Htext.
Qed.

End Members.

(** * The further properties on the examples *)

Lemma return_sound_foo :
  call_function Testsuite.foo [VInt 1] [] Testsuite.st0
  = (Return (VStr "1"), Testsuite.st0)
  ∧ instance_of_declared (deref Testsuite.st0 1) "return" (VStr "1") = true.
Proof.
  destruct (wrapper_return_sound (Closure Testsuite.foo 1) [VInt 1] []
              Testsuite.st0 (VStr "1") Testsuite.st0)
    as (Hcall & _ & Hret); [reflexivity|].
  split; [exact Hcall|exact Hret].
Defined.

Lemma refused_annotation_lazy :
  optional_typecheck Examples.lazy Examples.st1
  = Ok (Closure Examples.lazy 13)
  ∧ wrapper (Closure Examples.lazy 13) [VInt 1] [] Examples.st1
    = (Raise (TypeError
         "isinstance() arg 2 must be a type, a tuple of types, or a union"),
       Examples.st1).
Proof.
  destruct (refused_annotation_fails_at_call Examples.lazy 13 [VInt 1] []
              Examples.st1 [] "x" (VInt 1) [] "int" not_a_type)
    as [Hdeco Hcall]; [reflexivity..|].
  split; [exact Hdeco|]. exact (Hcall (f_body Examples.lazy)).
Defined.

Lemma refused_return_later :
  optional_typecheck Examples.later Examples.st1
  = Ok (Closure Examples.later 14)
  ∧ wrapper (Closure Examples.later 14) [VInt 1] [] Examples.st1
    = (Raise (TypeError
         "isinstance() arg 2 must be a type, a tuple of types, or a union"),
       State (heap Examples.st1) (fn_annotations Examples.st1) ["later"]).
Proof.
  apply (refused_return_annotation Examples.later 14 [VInt 1] []
           Examples.st1 (VInt 1)
           (State (heap Examples.st1) (fn_annotations Examples.st1) ["later"])
           "None" not_a_type); reflexivity.
Defined.

Lemma star_parameters_h :
  getcallargs (f_code Examples.h) [VInt 1; VInt 2; VInt 3; VInt 4]
    [("d", VInt 4); ("z", VInt 3)]
  = Ok [("a", VInt 1); ("b", VInt 2); ("c", VTuple [VInt 3; VInt 4]);
        ("k", VDict [("z", VInt 3)]); ("d", VInt 4); ("e", VInt 5)]
  ∧ dict_get "c" [("a", VInt 1); ("b", VInt 2); ("c", VTuple [VInt 3; VInt 4]);
                  ("k", VDict [("z", VInt 3)]); ("d", VInt 4); ("e", VInt 5)]
    = Some (VTuple [VInt 3; VInt 4]).
Proof.
  split; [reflexivity|].
  destruct (star_parameters_bound (f_code Examples.h)
              [VInt 1; VInt 2; VInt 3; VInt 4] [("d", VInt 4); ("z", VInt 3)]
              [("a", VInt 1); ("b", VInt 2); ("c", VTuple [VInt 3; VInt 4]);
               ("k", VDict [("z", VInt 3)]); ("d", VInt 4); ("e", VInt 5)])
    as [Hva Hvk];
    [reflexivity|compute_done|reflexivity|].
  exact (Hva "c" eq_refl).
Defined.

Lemma star_annotation_total :
  ∃ e, exn_class e = "TypeError"
       ∧ ∀ body,
           wrapper (Closure (PyFunction 12 (f_code Examples.total) body) 12)
             [VInt 1; VInt 2] [] Examples.st1
           = (Raise e, Examples.st1).
Proof.
  apply (star_annotation_checks_container Examples.total Examples.st1
           (Closure Examples.total 12) [VInt 1; VInt 2] [] Examples.st1
           "args" int_cls); [reflexivity|reflexivity| |reflexivity].
  left. split; reflexivity.
Defined.

Lemma each_parameter_once_h :
  NoDup ["a"; "c"; "k"; "d"; "b"; "e"]
  ∧ ∀ k, k ∈ ["a"; "c"; "k"; "d"; "b"; "e"]
         ↔ k ∈ ["a"; "b"; "d"; "e"; "c"; "k"].
Proof.
  apply (getcallargs_binds_each_parameter_once (f_code Examples.h)
           [VInt 1] [("d", VInt 4)]
           [("a", VInt 1); ("c", VTuple []); ("k", VDict []); ("d", VInt 4);
            ("b", VInt 2); ("e", VInt 5)]); reflexivity.
Defined.

Lemma leftmost_positional_qux :
  wrapper (Closure Testsuite.qux 3) [VInt 1; VStr "a"; VStr "b"]
    [] Testsuite.st0
  = (Raise (arg_mismatch "z" (AClass int_cls) (VStr "b")), Testsuite.st0).
Proof.
  apply (leftmost_positional_reported Testsuite.qux Testsuite.st0
           (Closure Testsuite.qux 3) [VInt 1; VStr "a"; VStr "b"] []
           Testsuite.st0
           [("x", VInt 1); ("y", VStr "a"); ("z", VStr "b")]
           2 "z" (VStr "b") int_cls); reflexivity.
Defined.

Lemma body_receives_foo :
  call_function Testsuite.foo [VInt 1] [] Testsuite.st0
  = f_body Testsuite.foo [("x", VInt 1)] Testsuite.st0
  ∧ isinstance (VInt 1) (AClass int_cls) = Ok true.
Proof.
  destruct (body_receives_checked_values Testsuite.foo Testsuite.st0
              (Closure Testsuite.foo 1) [VInt 1] [] Testsuite.st0
              [("x", VInt 1)]) as (Hcall & _ & Hinst); [reflexivity..|].
  split; [exact Hcall|].
  exact (Hinst "x" (VInt 1) (AClass int_cls) eq_refl eq_refl).
Defined.

Lemma undeclared_plain :
  (wrapper (Closure Testsuite.first 7) [VInt 1] [("y", VInt 2)] Testsuite.st0
   = call_function Testsuite.first [VInt 1] [("y", VInt 2)] Testsuite.st0
   ∧ call_function Testsuite.first [VInt 1] [("y", VInt 2)] Testsuite.st0
     = (Return (VInt 1), Testsuite.st0))
  ∧ ∃ e e',
      getcallargs (f_code Examples.plain) [] [] = Err e
      ∧ bind_call (f_code Examples.plain) [] [] = Err e'
      ∧ wrapper (Closure Examples.plain 15) [] [] Examples.st1
        = (Raise e, Examples.st1)
      ∧ call_function Examples.plain [] [] Examples.st1
        = (Raise e', Examples.st1)
      ∧ exn_class e = "TypeError" ∧ exn_class e' = "TypeError".
Proof.
  split.
  - destruct (undeclared_function_unchanged Testsuite.first Testsuite.st0
                (Closure Testsuite.first 7) [VInt 1] [("y", VInt 2)]
                Testsuite.st0) as (_ & Hbinds & _); [reflexivity..|].
    split; [apply Hbinds|]; reflexivity.
  - destruct (undeclared_function_unchanged Examples.plain Examples.st1
                (Closure Examples.plain 15) [] [] Examples.st1)
      as (_ & _ & Hfails); [reflexivity..|].
    apply Hfails. reflexivity.
Defined.

Lemma decorated_foo_is_wrapper :
  call_function Examples.foo1 [VInt 1] [] Examples.st_foo1
  = (Return (VStr "1"), Examples.st_foo1).
Proof.
  destruct (decorated_function_is_wrapper Testsuite.foo Testsuite.st0
              Examples.foo1 Examples.st_foo1 [VInt 1] [] Examples.st_foo1)
    as (_ & _ & _ & _ & w & Hw & Hcall); [reflexivity|constructor|].
  rewrite Hcall. injection Hw as <-. reflexivity.
Defined.

Lemma double_decoration_foo :
  call_function Examples.foo2 [VStr "a"] [] Examples.st_foo2
  = call_function Examples.foo1 [VStr "a"] [] Examples.st_foo2.
Proof.
  apply (double_decoration Testsuite.foo Testsuite.st0 Examples.foo1
           Examples.st_foo1 Examples.foo2 Examples.st_foo2 1);
    try reflexivity.
  constructor.
Defined.

Lemma double_decoration_named :
  call_function Examples.named1 [] [("args", VInt 1)] Examples.st_named2
  = (Return (VInt 1), Examples.st_named2)
  ∧ call_function Examples.named2 [] [("args", VInt 1)] Examples.st_named2
    = (Raise (arg_mismatch "args" (AClass int_cls) (VTuple [])),
       Examples.st_named2).
Proof.
  split; [reflexivity|].
  apply (double_decoration_args_clash Examples.named Examples.st1
           Examples.named1 Examples.st_named1 Examples.named2
           Examples.st_named2 16 int_cls); try reflexivity.
  compute_done.
Defined.

Lemma keyword_argument_foo :
  dict_get "x" [("x", VStr "a")] = Some (VStr "a")
  ∧ ∃ e, exn_class e = "TypeError"
         ∧ ∀ body,
             wrapper (Closure (PyFunction 1 (f_code Testsuite.foo) body) 1)
               [] [("x", VStr "a")] Testsuite.st0
             = (Raise e, Testsuite.st0).
Proof.
  apply (keyword_argument_checked Testsuite.foo Testsuite.st0
           (Closure Testsuite.foo 1) [] [("x", VStr "a")] Testsuite.st0
           [("x", VStr "a")] "x" (VStr "a") int_cls); try reflexivity.
  - constructor.
  - constructor.
Defined.

Lemma binding_succeeds_h :
  is_ok (getcallargs (f_code Examples.h) [VInt 1] [("d", VInt 4)]) = true
  ∧ is_ok (getcallargs (f_code Examples.h) [VInt 1] []) = false.
Proof.
  split; [reflexivity|].
  apply not_true_is_false. intros Hok.
  apply (binding_succeeds_iff (f_code Examples.h) [VInt 1] []) in Hok
    as (_ & _ & _ & Hkw); [|reflexivity|constructor].
  destruct (Hkw "d") as [Hin|Hdef].
  - constructor.
  - by apply elem_of_nil in Hin.
  - by apply is_Some_None in Hdef.
Defined.

Lemma binding_step_agrees_first :
  is_ok (getcallargs (f_code Testsuite.first) [VInt 1] [("y", VInt 2)])
  = is_ok (bind_call (f_code Testsuite.first) [VInt 1] [("y", VInt 2)])
  ∧ bind_call (f_code Testsuite.first) [VInt 1] [("y", VInt 2)]
    = Ok [("x", VInt 1); ("kw", VDict [("y", VInt 2)])]
  ∧ wrapper (Closure Testsuite.first 7) [] [("y", VInt 2)] Testsuite.st0
    = (Raise (TypeError "first() missing 1 required positional argument: 'x'"),
       Testsuite.st0).
Proof.
  split; [|split; [reflexivity|]].
  - apply (binding_step_agrees Testsuite.first Testsuite.st0
             (Closure Testsuite.first 7) [VInt 1] [("y", VInt 2)]
             Testsuite.st0); reflexivity.
  - destruct (binding_step_agrees Testsuite.first Testsuite.st0
                (Closure Testsuite.first 7) [] [("y", VInt 2)] Testsuite.st0)
      as [_ Hfail]; [reflexivity..|].
    apply (Hfail (TypeError
                    "first() missing 1 required positional argument: 'x'")).
    reflexivity.
Defined.

Lemma members_annotation_opt :
  wrapper (Closure Examples.opt 17) [] [("y", VStr "b")] Examples.st1
  = (Return VNone,
     State (heap Examples.st1) (fn_annotations Examples.st1) ["opt"])
  ∧ wrapper (Closure Examples.opt 17) [VStr "a"] [] Examples.st1
    = (Raise (TypeError
         "Expected argument 'x' of type int | None but got <class 'str'>."),
       Examples.st1)
  ∧ wrapper (Closure Examples.opt 17) [VInt 1; VNone] [] Examples.st1
    = (Raise (TypeError
         "Expected argument 'y' of type (<class 'int'>, <class 'str'>) but got <class 'NoneType'>."),
       Examples.st1).
Proof.
  split; [|split].
  - unfold wrapper.
    rewrite (proj1 (proj2 (members_annotation_checked Examples.opt
               Examples.st1 (Closure Examples.opt 17) [] [("y", VStr "b")]
               Examples.st1 [] "y" (VStr "b") [("x", VNone)]
               (ATuple "(<class 'int'>, <class 'str'>)"
                  [AClass int_cls; AClass str_cls])
               "(<class 'int'>, <class 'str'>)" [int_cls; str_cls]
               eq_refl eq_refl (or_introl eq_refl) eq_refl eq_refl)) eq_refl).
    reflexivity.
  - apply (proj2 (proj2 (members_annotation_checked Examples.opt
             Examples.st1 (Closure Examples.opt 17) [VStr "a"] []
             Examples.st1 [] "x" (VStr "a") [("y", VInt 0)]
             (AUnion "int | None" [AClass int_cls; AClass none_cls])
             "int | None" [int_cls; none_cls]
             eq_refl eq_refl (or_intror eq_refl) eq_refl eq_refl)) eq_refl
           (f_body Examples.opt)).
  - apply (proj2 (proj2 (members_annotation_checked Examples.opt
             Examples.st1 (Closure Examples.opt 17) [VInt 1; VNone] []
             Examples.st1 [("x", VInt 1)] "y" VNone []
             (ATuple "(<class 'int'>, <class 'str'>)"
                [AClass int_cls; AClass str_cls])
             "(<class 'int'>, <class 'str'>)" [int_cls; str_cls]
             eq_refl eq_refl (or_introl eq_refl) eq_refl eq_refl)) eq_refl
           (f_body Examples.opt)).
Defined.
